(** * Gridworld: a shallow embedding of the transport grid simulation

    The development follows the Python package [gridworld]:
    - [gridworld/__init__.py]  : [Action], [GridWorldEnv] (reset, step, collision detection);
    - [gridworld/scheduler.py] : [CentralClock] on top of [itertools.cycle];
    - [gridworld/sensors.py]   : [neighbour_coords], [opp_dir_mask].

    Python integers are unbounded and are modelled by [Z].  Rewards are Python
    floats; the only arithmetic the environment performs on them is addition
    starting from [0.0], and they are modelled by rationals [Q] (statements
    about a reward that went through an addition use [==]).  Methods that
    read or write [self] live in a state-and-exception monad, so that a call
    which raises still shows the state it leaves behind. *)

From Stdlib Require Import ZArith QArith.
From stdpp Require Import gmap strings list.

Local Open Scope Z_scope.

(** ** Exceptions and the state-and-exception monad *)

Inductive error : Type :=
  | AssertionError
  | IndexError
  | KeyError
  | AttributeError
  | TypeError
  | StopIteration.

Inductive result (A : Type) : Type :=
  | Ok (a : A)
  | Err (e : error).
Arguments Ok {A} a.
Arguments Err {A} e.

Definition is_ok {A} (r : result A) : bool :=
  match r with Ok _ => true | Err _ => false end.

Definition M (St A : Type) : Type := St -> result A * St.

Definition ret {St A} (a : A) : M St A := fun s => (Ok a, s).

Definition bind {St A B} (m : M St A) (k : A -> M St B) : M St B :=
  fun s => match m s with
           | (Ok a, s') => k a s'
           | (Err e, s') => (Err e, s')
           end.

Definition raise {St A} (e : error) : M St A := fun s => (Err e, s).
Definition get {St} : M St St := fun s => (Ok s, s).
Definition modify {St} (f : St -> St) : M St unit := fun s => (Ok tt, f s).

(** [assert cond] *)
Definition py_assert {St} (cond : bool) : M St unit :=
  if cond then ret tt else raise AssertionError.

(** [l[i]] for a non-negative index. *)
Definition getitem {St A} (l : list A) (i : nat) : M St A :=
  match l !! i with
  | Some x => ret x
  | None => raise IndexError
  end.

(** [l[i] = x] for a non-negative index: Python raises out of range. *)
Definition setitem {St A} (l : list A) (i : nat) (x : A) : M St (list A) :=
  if decide (i < length l)%nat then ret (<[i:=x]> l) else raise IndexError.

Notation "'let!' x ':=' m 'in' k" := (bind m (fun x => k))
  (at level 10, x pattern, m at level 100, k at level 200).
Notation "'do!' m 'in' k" := (bind m (fun _ => k))
  (at level 10, m at level 100, k at level 200).

(** [for i, x in enumerate(l, start): acc = body(i, x, acc)] *)
Fixpoint for_enum {St A B} (body : nat -> A -> B -> M St B)
    (start : nat) (l : list A) (acc : B) : M St B :=
  match l with
  | [] => ret acc
  | x :: l' => let! acc' := body start x acc in for_enum body (S start) l' acc'
  end.

(** [for x in l: acc = body(x, acc)] *)
Fixpoint for_each {St A B} (body : A -> B -> M St B)
    (l : list A) (acc : B) : M St B :=
  match l with
  | [] => ret acc
  | x :: l' => let! acc' := body x acc in for_each body l' acc'
  end.

(** ** gridworld/__init__.py *)

Module Grid.

(** A position is the Python pair [[row, col]]. *)
Definition pos : Type := (Z * Z)%type.

(** [class Action(IntEnum)] *)
Definition NORTH : Z := 0.
Definition SOUTH : Z := 1.
Definition WEST : Z := 2.
Definition EAST : Z := 3.

Definition GRID_SIZE : Z := 5.
Definition NUM_AGENTS : Z := 4.
Definition COLLISION_PENALTY : Q := (-10)%Q.
Definition DELIVERY_REWARD : Q := 1%Q.

(** The attributes of a [GridWorldEnv] instance. [carrying] holds 0/1 and
    [directions] holds 0 (A to B, the outbound leg) or 1 (B to A, the return
    leg). *)
Record GridWorldEnv : Type := mkEnv {
  grid_size : Z;
  num_agents : Z;
  collision_penalty : Q;
  delivery_reward : Q;
  location_A : pos;
  location_B : pos;
  agent_positions : list pos;
  carrying : list Z;
  directions : list Z;
  steps : Z;
  total_reward : Q;
  total_collisions : Z;
  total_deliveries : Z
}.

Definition set_agent_positions (v : list pos) (e : GridWorldEnv) : GridWorldEnv :=
  mkEnv (grid_size e) (num_agents e) (collision_penalty e) (delivery_reward e)
        (location_A e) (location_B e) v (carrying e) (directions e)
        (steps e) (total_reward e) (total_collisions e) (total_deliveries e).

Definition set_carrying (v : list Z) (e : GridWorldEnv) : GridWorldEnv :=
  mkEnv (grid_size e) (num_agents e) (collision_penalty e) (delivery_reward e)
        (location_A e) (location_B e) (agent_positions e) v (directions e)
        (steps e) (total_reward e) (total_collisions e) (total_deliveries e).

Definition set_directions (v : list Z) (e : GridWorldEnv) : GridWorldEnv :=
  mkEnv (grid_size e) (num_agents e) (collision_penalty e) (delivery_reward e)
        (location_A e) (location_B e) (agent_positions e) (carrying e) v
        (steps e) (total_reward e) (total_collisions e) (total_deliveries e).

Definition set_steps (v : Z) (e : GridWorldEnv) : GridWorldEnv :=
  mkEnv (grid_size e) (num_agents e) (collision_penalty e) (delivery_reward e)
        (location_A e) (location_B e) (agent_positions e) (carrying e) (directions e)
        v (total_reward e) (total_collisions e) (total_deliveries e).

Definition set_total_reward (v : Q) (e : GridWorldEnv) : GridWorldEnv :=
  mkEnv (grid_size e) (num_agents e) (collision_penalty e) (delivery_reward e)
        (location_A e) (location_B e) (agent_positions e) (carrying e) (directions e)
        (steps e) v (total_collisions e) (total_deliveries e).

Definition set_total_collisions (v : Z) (e : GridWorldEnv) : GridWorldEnv :=
  mkEnv (grid_size e) (num_agents e) (collision_penalty e) (delivery_reward e)
        (location_A e) (location_B e) (agent_positions e) (carrying e) (directions e)
        (steps e) (total_reward e) v (total_deliveries e).

Definition set_total_deliveries (v : Z) (e : GridWorldEnv) : GridWorldEnv :=
  mkEnv (grid_size e) (num_agents e) (collision_penalty e) (delivery_reward e)
        (location_A e) (location_B e) (agent_positions e) (carrying e) (directions e)
        (steps e) (total_reward e) (total_collisions e) v.

(** One entry of the dictionary built by [_get_observations]. *)
Record observation : Type := mkObs {
  obs_position : pos;
  obs_location_A : pos;
  obs_location_B : pos;
  obs_carrying : Z;
  obs_direction : Z
}.

(** The [info] dictionary returned by [step]. *)
Record info : Type := mkInfo {
  info_steps : Z;
  info_total_reward : Q;
  info_total_collisions : Z;
  info_total_deliveries : Z
}.

(** [_get_next_position]: an action that is none of the four codes, or that
    points off the grid, falls through every branch. *)
Definition _get_next_position (self : GridWorldEnv) (current_pos : pos) (action : Z) : pos :=
  let '(r, c) := current_pos in
  if decide (action = NORTH /\ r > 0) then (r - 1, c)
  else if decide (action = SOUTH /\ r < grid_size self - 1) then (r + 1, c)
  else if decide (action = WEST /\ c > 0) then (r, c - 1)
  else if decide (action = EAST /\ c < grid_size self - 1) then (r, c + 1)
  else (r, c).

(** The dictionary [pos_to_agents], in insertion order. *)
Definition pos_dict : Type := list (pos * list nat).

(** [if p not in d: d[p] = []] followed by [d[p].append(i)]. *)
Fixpoint dict_append (d : pos_dict) (p : pos) (i : nat) : pos_dict :=
  match d with
  | [] => [(p, [i])]
  | (q, agents) :: d' =>
      if decide (q = p) then (q, agents ++ [i]) :: d'
      else (q, agents) :: dict_append d' p i
  end.

(** The first loop of [_detect_collisions], from agent index [start]. *)
Fixpoint group_positions (start : nat) (next_positions : list pos) (d : pos_dict) : pos_dict :=
  match next_positions with
  | [] => d
  | p :: rest => group_positions (S start) rest (dict_append d p start)
  end.

(** The inner loop over one group: which legs occur in it. *)
Definition scan_leg (agent_idx : nat) (flags : bool * bool) : M GridWorldEnv (bool * bool) :=
  let! self := get in
  let! d := getitem (directions self) agent_idx in
  if decide (d = 0) then ret (true, snd flags) else ret (fst flags, true).

(** The body of the second loop of [_detect_collisions]. *)
Definition check_group (entry : pos * list nat) (collisions : gset nat)
  : M GridWorldEnv (gset nat) :=
  let '(pos_tuple, agents) := entry in
  let! self := get in
  if decide (pos_tuple = location_A self \/ pos_tuple = location_B self) then ret collisions
  else if decide (length agents <= 1)%nat then ret collisions
  else
    let! flags := for_each scan_leg agents (false, false) in
    if fst flags && snd flags then ret (collisions ∪ list_to_set agents)
    else ret collisions.

Definition _detect_collisions (next_positions : list pos) : M GridWorldEnv (gset nat) :=
  let pos_to_agents := group_positions 0 next_positions [] in
  for_each check_group pos_to_agents ∅.

Definition _is_at_location_A (agent_idx : nat) : M GridWorldEnv bool :=
  let! self := get in
  let! p := getitem (agent_positions self) agent_idx in
  ret (bool_decide (p = location_A self)).

Definition _is_at_location_B (agent_idx : nat) : M GridWorldEnv bool :=
  let! self := get in
  let! p := getitem (agent_positions self) agent_idx in
  ret (bool_decide (p = location_B self)).

Definition _get_observations : M GridWorldEnv (list observation) :=
  let! self := get in
  for_each (fun agent_idx observations =>
      let! p := getitem (agent_positions self) agent_idx in
      let! c := getitem (carrying self) agent_idx in
      let! d := getitem (directions self) agent_idx in
      ret (observations ++ [mkObs p (location_A self) (location_B self) c d]))
    (seq 0 (Z.to_nat (num_agents self))) [].

(** [sum(rewards)]: Python starts from the integer 0 and adds left to right. *)
Definition py_sum (rewards : list Q) : Q := fold_left Qplus rewards 0%Q.

(** The body of the update loop of [step], for one agent. *)
Definition update_agent (collisions : gset nat) (agent_idx : nat) (next_pos : pos)
    (rewards : list Q) : M GridWorldEnv (list Q) :=
  if decide (agent_idx ∈ collisions) then
    let! self := get in
    let! r := getitem rewards agent_idx in
    let! rewards := setitem rewards agent_idx (r + collision_penalty self)%Q in
    do! modify (fun e => set_total_collisions (total_collisions e + 1) e) in
    ret rewards
  else
    let! self := get in
    let! positions := setitem (agent_positions self) agent_idx next_pos in
    do! modify (set_agent_positions positions) in
    let! at_A := _is_at_location_A agent_idx in
    let! returning :=
      (if at_A then
         let! self := get in
         let! d := getitem (directions self) agent_idx in
         ret (bool_decide (d = 1))
       else ret false) in
    if returning then
      let! self := get in
      let! c := setitem (carrying self) agent_idx 1 in
      do! modify (set_carrying c) in
      let! self := get in
      let! d := setitem (directions self) agent_idx 0 in
      do! modify (set_directions d) in
      ret rewards
    else
      let! at_B := _is_at_location_B agent_idx in
      let! outbound :=
        (if at_B then
           let! self := get in
           let! d := getitem (directions self) agent_idx in
           ret (bool_decide (d = 0))
         else ret false) in
      if outbound then
        let! self := get in
        let! c := getitem (carrying self) agent_idx in
        if decide (c = 1) then
          let! self := get in
          let! c := setitem (carrying self) agent_idx 0 in
          do! modify (set_carrying c) in
          let! self := get in
          let! r := getitem rewards agent_idx in
          let! rewards := setitem rewards agent_idx (r + delivery_reward self)%Q in
          do! modify (fun e => set_total_deliveries (total_deliveries e + 1) e) in
          let! self := get in
          let! d := setitem (directions self) agent_idx 1 in
          do! modify (set_directions d) in
          ret rewards
        else ret rewards
      else ret rewards.

(** The first loop of [step]: the candidate position of every agent. *)
Definition project_move (agent_idx : nat) (action : Z) (next_positions : list pos)
  : M GridWorldEnv (list pos) :=
  let! self := get in
  let! p := getitem (agent_positions self) agent_idx in
  ret (next_positions ++ [_get_next_position self p action]).

Definition step (actions : list Z)
  : M GridWorldEnv (list observation * list Q * bool * info) :=
  let! self := get in
  do! py_assert (bool_decide (Z.of_nat (length actions) = num_agents self)) in
  do! modify (fun e => set_steps (steps e + 1) e) in
  let! next_positions := for_enum project_move 0 actions [] in
  let! self := get in
  let rewards := replicate (Z.to_nat (num_agents self)) 0%Q in
  let! collisions := _detect_collisions next_positions in
  let! rewards := for_enum (update_agent collisions) 0 next_positions rewards in
  do! modify (fun e => set_total_reward (total_reward e + py_sum rewards)%Q e) in
  let! observations := _get_observations in
  let done := false in
  let! self := get in
  ret (observations, rewards, done,
       mkInfo (steps self) (total_reward self) (total_collisions self)
              (total_deliveries self)).

(** [reset]: [site_A] and [site_B] stand for the outcome of the random draws,
    [site_B] being the draw on which the redraw loop stops. *)
Definition reset (site_A site_B : pos) : M GridWorldEnv (list observation) :=
  do! modify (fun e =>
    mkEnv (grid_size e) (num_agents e) (collision_penalty e) (delivery_reward e)
          site_A site_B
          (replicate (Z.to_nat (num_agents e)) site_A)
          (replicate (Z.to_nat (num_agents e)) 0)
          (replicate (Z.to_nat (num_agents e)) 0)
          0 0%Q 0 0) in
  _get_observations.

(** [__init__]: the four options are stored, then [reset] runs. Before
    [reset] the other attributes do not exist; the placeholders below are
    all overwritten by it. *)
Definition __init__ (grid_size num_agents : Z) (collision_penalty delivery_reward : Q)
    (site_A site_B : pos) : GridWorldEnv :=
  snd (reset site_A site_B
         (mkEnv grid_size num_agents collision_penalty delivery_reward
                (0, 0) (0, 0) [] [] [] 0 0%Q 0 0)).

(** What [_random_position] can return. *)
Definition in_grid (size : Z) (p : pos) : Prop :=
  0 <= fst p <= size - 1 /\ 0 <= snd p <= size - 1.

(** The states an environment can be in when only its constructor, [reset]
    and [step] touch its attributes. A call that raises leaves the
    environment in the state the exception found it in. *)
Inductive reachable : GridWorldEnv -> Prop :=
  | reachable_init size n penalty reward site_A site_B :
      in_grid size site_A -> in_grid size site_B -> site_A <> site_B ->
      reachable (__init__ size n penalty reward site_A site_B)
  | reachable_reset e site_A site_B :
      reachable e ->
      in_grid (grid_size e) site_A -> in_grid (grid_size e) site_B ->
      site_A <> site_B ->
      reachable (snd (reset site_A site_B e))
  | reachable_step e actions :
      reachable e -> reachable (snd (step actions e)).

(** The leg an agent is on, as [_detect_collisions] reads a direction flag:
    0 is the outbound leg, anything else the return leg. *)
Inductive leg : Type := OutboundAtoB | ReturnBtoA.

Definition leg_of (direction : Z) : leg :=
  if decide (direction = 0) then OutboundAtoB else ReturnBtoA.

(** *** Vocabulary for the statements about [step] *)

(** The three per-agent lists have one entry per agent. *)
Definition well_formed (e : GridWorldEnv) : Prop :=
  length (agent_positions e) = Z.to_nat (num_agents e) /\
  length (carrying e) = Z.to_nat (num_agents e) /\
  length (directions e) = Z.to_nat (num_agents e).

(** The candidate positions [step] computes from [actions]. *)
Definition candidates (e : GridWorldEnv) (actions : list Z) : list pos :=
  zip_with (_get_next_position e) (agent_positions e) actions.

(** The agents [step] marks collided on [actions]. *)
Definition collided (e : GridWorldEnv) (actions : list Z) : gset nat :=
  match fst (_detect_collisions (candidates e actions) e) with
  | Ok collisions => collisions
  | Err _ => ∅
  end.

(** Which legs occur in a group, read off the direction flags. *)
Definition heads_out (dirs : list Z) (i : nat) : bool :=
  match dirs !! i with Some d => bool_decide (d = 0) | None => false end.

Definition heads_back (dirs : list Z) (i : nat) : bool :=
  match dirs !! i with Some d => bool_decide (d <> 0) | None => false end.

(** The outcome of [check_group] on one entry of the dictionary. *)
Definition group_collides (e : GridWorldEnv) (entry : pos * list nat) : bool :=
  bool_decide (~ (entry.1 = location_A e \/ entry.1 = location_B e))
  && bool_decide (~ (length entry.2 <= 1)%nat)
  && (existsb (heads_out (directions e)) entry.2
      && existsb (heads_back (directions e)) entry.2).

(** The dictionary [d] groups the positions [pre] seen so far. *)
Definition grouped (d : pos_dict) (pre : list pos) : Prop :=
  NoDup d.*1 /\
  (forall p agents, (p, agents) ∈ d -> forall i, i ∈ agents <-> pre !! i = Some p) /\
  (forall i p, pre !! i = Some p -> p ∈ d.*1).

(** Which branch of the update loop an agent takes. *)
Inductive event : Type := Collided | PickedUp | Delivered | Moved.

Global Instance event_eq_dec : EqDecision event.
Proof. solve_decision. Defined.

Definition classify (e : GridWorldEnv) (collisions : gset nat) (i : nat)
    (next_pos : pos) (c d : Z) : event :=
  if decide (i ∈ collisions) then Collided
  else if decide (next_pos = location_A e /\ d = 1) then PickedUp
  else if decide (next_pos = location_B e /\ d = 0 /\ c = 1) then Delivered
  else Moved.

(** The four action codes. *)
Definition valid_action (a : Z) : Prop :=
  a = NORTH \/ a = SOUTH \/ a = WEST \/ a = EAST.

(** Agent [i] is in a head-on group: its candidate cell is not a site and is
    also the candidate cell of an agent with flag 0 and of an agent with a
    flag other than 0. *)
Definition head_on (e : GridWorldEnv) (next_positions : list pos) (i : nat) : Prop :=
  exists p, next_positions !! i = Some p /\
    p <> location_A e /\ p <> location_B e /\
    (exists j, next_positions !! j = Some p /\ directions e !! j = Some 0) /\
    (exists k dk, next_positions !! k = Some p /\ directions e !! k = Some dk /\ dk <> 0).

(** What [update_agent] does to the rewards and the environment on each
    branch, for an agent whose reward so far is [r]. *)
Definition apply_event (ev : event) (i : nat) (next_pos : pos) (r : Q)
    (rewards : list Q) (e : GridWorldEnv) : list Q * GridWorldEnv :=
  match ev with
  | Collided =>
      (<[i := (r + collision_penalty e)%Q]> rewards,
       set_total_collisions (total_collisions e + 1) e)
  | PickedUp =>
      (rewards,
       set_directions (<[i := 0]> (directions e))
         (set_carrying (<[i := 1]> (carrying e))
            (set_agent_positions (<[i := next_pos]> (agent_positions e)) e)))
  | Delivered =>
      (<[i := (r + delivery_reward e)%Q]> rewards,
       set_directions (<[i := 1]> (directions e))
         (set_total_deliveries (total_deliveries e + 1)
            (set_carrying (<[i := 0]> (carrying e))
               (set_agent_positions (<[i := next_pos]> (agent_positions e)) e))))
  | Moved =>
      (rewards, set_agent_positions (<[i := next_pos]> (agent_positions e)) e)
  end.

(** One iteration of the update loop as a function. *)
Definition update_pure (collisions : gset nat) (i : nat) (next_pos : pos)
    (st : list Q * GridWorldEnv) : list Q * GridWorldEnv :=
  match carrying st.2 !! i, directions st.2 !! i, st.1 !! i with
  | Some c, Some d, Some r =>
      apply_event (classify st.2 collisions i next_pos c d) i next_pos r st.1 st.2
  | _, _, _ => st
  end.

(** The update loop from agent [i] on. *)
Fixpoint update_all (collisions : gset nat) (i : nat) (next_positions : list pos)
    (st : list Q * GridWorldEnv) : list Q * GridWorldEnv :=
  match next_positions with
  | [] => st
  | q :: rest => update_all collisions (S i) rest (update_pure collisions i q st)
  end.

(** The entries of agent [j]: position, carrying flag, direction flag and
    reward of the tick. *)
Definition row (st : list Q * GridWorldEnv) (j : nat)
  : option pos * option Z * option Z * option Q :=
  (agent_positions st.2 !! j, carrying st.2 !! j, directions st.2 !! j, st.1 !! j).

(** The entries of an agent after its iteration. *)
Definition outcome (e : GridWorldEnv) (ev : event) (p next_pos : pos) (c d : Z) (r : Q)
  : pos * Z * Z * Q :=
  match ev with
  | Collided => (p, c, d, (r + collision_penalty e)%Q)
  | PickedUp => (next_pos, 1, 0, r)
  | Delivered => (next_pos, 0, 1, (r + delivery_reward e)%Q)
  | Moved => (next_pos, c, d, r)
  end.

(** Everything [step] reads besides the per-agent lists and the counters of
    collisions and deliveries. *)
Definition same_setting (e e' : GridWorldEnv) : Prop :=
  grid_size e' = grid_size e /\ num_agents e' = num_agents e /\
  collision_penalty e' = collision_penalty e /\
  delivery_reward e' = delivery_reward e /\
  location_A e' = location_A e /\ location_B e' = location_B e /\
  steps e' = steps e /\ total_reward e' = total_reward e.

(** The branch agent [i] takes in [step] on [actions]. *)
Definition event_of (e : GridWorldEnv) (actions : list Z) (i : nat) : event :=
  match candidates e actions !! i, carrying e !! i, directions e !! i with
  | Some q, Some c, Some d => classify e (collided e actions) i q c d
  | _, _, _ => Moved
  end.

(** The number of agents, from agent [i] on, that take branch [ev]. *)
Fixpoint count_events (ev : event) (e : GridWorldEnv) (actions : list Z)
    (i n : nat) : Z :=
  match n with
  | O => 0
  | S n' => (if decide (event_of e actions i = ev) then 1 else 0)
            + count_events ev e actions (S i) n'
  end.

(** The per-agent lists and the rewards keep their lengths. *)
Definition same_sizes (st st' : list Q * GridWorldEnv) : Prop :=
  length (agent_positions st'.2) = length (agent_positions st.2) /\
  length (carrying st'.2) = length (carrying st.2) /\
  length (directions st'.2) = length (directions st.2) /\
  length st'.1 = length st.1.

(** The branch iteration [i] of the update loop takes in state [st]. *)
Definition event_in (collisions : gset nat) (st : list Q * GridWorldEnv) (i : nat)
    (next_pos : pos) : event :=
  match carrying st.2 !! i, directions st.2 !! i, st.1 !! i with
  | Some c, Some d, Some _ => classify st.2 collisions i next_pos c d
  | _, _, _ => Moved
  end.

Fixpoint count_in (ev : event) (collisions : gset nat) (i : nat)
    (next_positions : list pos) (st : list Q * GridWorldEnv) : Z :=
  match next_positions with
  | [] => 0
  | q :: rest => (if decide (event_in collisions st i q = ev) then 1 else 0)
                 + count_in ev collisions (S i) rest st
  end.

(** The options and the sites are the same in both environments. *)
Definition same_config (e e' : GridWorldEnv) : Prop :=
  grid_size e' = grid_size e /\ num_agents e' = num_agents e /\
  collision_penalty e' = collision_penalty e /\
  delivery_reward e' = delivery_reward e /\
  location_A e' = location_A e /\ location_B e' = location_B e.

(** Nobody carries, everybody is outbound and nothing has been counted. *)
Definition quiet (e : GridWorldEnv) : Prop :=
  well_formed e /\
  carrying e = replicate (Z.to_nat (num_agents e)) 0 /\
  directions e = replicate (Z.to_nat (num_agents e)) 0 /\
  total_reward e = 0%Q /\ total_collisions e = 0 /\ total_deliveries e = 0.

(** *** Vocabulary for the statements about whole environments *)

(** Every agent stands on a cell of the grid. *)
Definition agents_in_grid (e : GridWorldEnv) : Prop :=
  Forall (in_grid (grid_size e)) (agent_positions e).

(** The carrying flags and the direction flags hold 0 or 1. *)
Definition flags_binary (e : GridWorldEnv) : Prop :=
  Forall (fun c => c = 0 \/ c = 1) (carrying e) /\
  Forall (fun d => d = 0 \/ d = 1) (directions e).

(** An agent on the return leg carries nothing. *)
Definition returning_empty_handed (e : GridWorldEnv) : Prop :=
  forall i c d, carrying e !! i = Some c -> directions e !! i = Some d ->
                d = 1 -> c = 0.

(** The entry [_get_observations] builds for agent [i]. *)
Definition observation_of (e : GridWorldEnv) (i : nat) : option observation :=
  match agent_positions e !! i, carrying e !! i, directions e !! i with
  | Some p, Some c, Some d => Some (mkObs p (location_A e) (location_B e) c d)
  | _, _, _ => None
  end.

End Grid.

(** ** gridworld/scheduler.py *)

Module Scheduler.

(** [itertools.cycle]: the iterator first drains the iterable it was given,
    saving every item, and from then on replays the saved items by index.
    [it] is the list iterator over the scheduler's own list (its remaining
    items, [None] once it has been found exhausted); the scheduler never
    changes that list while the cycle built on it is alive. *)
Record cycle : Type := mkCycle {
  it : option (list Z);
  saved : list Z;
  index : nat
}.

Definition itertools_cycle (iterable : list Z) : cycle :=
  mkCycle (Some iterable) [] 0.

(** The replay phase: an empty [saved] ends the iteration. *)
Definition cycle_replay (c : cycle) : M cycle Z :=
  fun _ =>
    match saved c !! index c with
    | None => (Err StopIteration, c)
    | Some x =>
        let index' := if decide (length (saved c) <= S (index c))%nat then 0%nat
                      else S (index c) in
        (Ok x, mkCycle (it c) (saved c) index')
    end.

(** [next(cycle)] *)
Definition cycle_next : M cycle Z :=
  let! c := get in
  match it c with
  | Some (x :: rest) =>
      do! modify (fun _ => mkCycle (Some rest) (saved c ++ [x]) (index c)) in
      ret x
  | Some [] => cycle_replay (mkCycle None (saved c) (index c))
  | None => cycle_replay c
  end.

Record CentralClock : Type := mkClock {
  agent_ids : list Z;
  _cycle : cycle
}.

(** [CentralClock(agent_ids)] *)
Definition __init__ (agent_ids : list Z) : CentralClock :=
  mkClock agent_ids (itertools_cycle agent_ids).

(** [__next__] *)
Definition __next__ : M CentralClock Z :=
  fun self =>
    let '(r, c) := cycle_next (_cycle self) in
    (r, mkClock (agent_ids self) c).

(** [shuffle(new_order)]. [rng] is the outcome of [random.shuffle] on the
    current list, used only when no order is given. *)
Definition shuffle (rng : list Z -> list Z) (new_order : option (list Z))
  : M CentralClock unit :=
  let! self := get in
  do! (match new_order with
       | Some order =>
           do! py_assert (bool_decide
                 (list_to_set order =@{gset Z} list_to_set (agent_ids self))) in
           modify (fun c => mkClock order (_cycle c))
       | None =>
           modify (fun c => mkClock (rng (agent_ids c)) (_cycle c))
       end) in
  modify (fun c => mkClock (agent_ids c) (itertools_cycle (agent_ids c))).

(** The [k]-th call of [__next__] (0-indexed) after the calls before it. *)
Fixpoint nth_call (k : nat) : M CentralClock Z :=
  match k with
  | O => __next__
  | S k' => do! __next__ in nth_call k'
  end.

(** The results of [n] successive calls of [__next__]. *)
Fixpoint take_calls (n : nat) : M CentralClock (list Z) :=
  match n with
  | O => ret []
  | S n' => let! x := __next__ in
            let! xs := take_calls n' in
            ret (x :: xs)
  end.

(** The clock over [ids] after [j] calls: draining while [j] is at most the
    length of the list, replaying afterwards. *)
Definition clock_after (ids : list Z) (j : nat) : CentralClock :=
  if decide (j <= length ids)%nat
  then mkClock ids (mkCycle (Some (drop j ids)) (take j ids) 0)
  else mkClock ids (mkCycle None ids (j mod length ids)).

(** [class RoundRobin]: a wrapper that owns a [CentralClock] and hands every
    call over to it. *)
Record RoundRobin : Type := mkRoundRobin {
  clock : CentralClock
}.

(** [RoundRobin(agent_ids)] *)
Definition RoundRobin_init (agent_ids : list Z) : RoundRobin :=
  mkRoundRobin (__init__ agent_ids).

(** [RoundRobin.__next__] *)
Definition RoundRobin_next : M RoundRobin Z :=
  fun self =>
    let '(r, c) := __next__ (clock self) in
    (r, mkRoundRobin c).

(** [RoundRobin.shuffle] *)
Definition RoundRobin_shuffle (rng : list Z -> list Z) (new_order : option (list Z))
  : M RoundRobin unit :=
  fun self =>
    let '(r, c) := shuffle rng new_order (clock self) in
    (r, mkRoundRobin c).

(** The results of [n] successive calls of [RoundRobin.__next__]. *)
Fixpoint RoundRobin_take_calls (n : nat) : M RoundRobin (list Z) :=
  match n with
  | O => ret []
  | S n' => let! x := RoundRobin_next in
            let! xs := RoundRobin_take_calls n' in
            ret (x :: xs)
  end.

End Scheduler.

(** ** gridworld/sensors.py *)

Module Sensors.

(** [config.Pos]: a (row, col) tuple. *)
Definition Pos : Type := (Z * Z)%type.

(** One value of the table [agent_states]: the keys the sensor reads. *)
Record agent_state : Type := mkAgentState {
  position : Pos;
  direction : Z
}.

(** The values an attribute of the object handed to the sensor can hold. *)
Inductive attr : Type :=
  | AInt (z : Z)
  | AFloat (q : Q)
  | APair (p : list Z)
  | APairs (l : list (list Z))
  | AInts (l : list Z)
  | AStates (t : gmap Z agent_state)
  | AMethod.

(** [obj.name]: a name that is not an attribute raises. *)
Definition getattr (name : string) : M (gmap string attr) attr :=
  let! obj := get in
  match obj !! name with
  | Some v => ret v
  | None => raise AttributeError
  end.

Definition as_states (v : attr) : M (gmap string attr) (gmap Z agent_state) :=
  match v with AStates t => ret t | _ => raise TypeError end.

Definition as_int (v : attr) : M (gmap string attr) Z :=
  match v with AInt z => ret z | _ => raise TypeError end.

Definition neighbour_coords (pos : Pos) : list Pos :=
  let '(x, y) := pos in
  [ (x - 1, y - 1);
    (x - 1, y);
    (x - 1, y + 1);
    (x, y - 1);
    (x, y + 1);
    (x + 1, y - 1);
    (x + 1, y);
    (x + 1, y + 1) ].

(** The inner loop over [agent_states.items()]: does it reach the [break]? *)
Definition opposite_at (agent_states : gmap Z agent_state) (agent_id : Z)
    (current_dir_flag : Z) (cell : Pos) : bool :=
  existsb (fun '(other_id, other_state) =>
             if decide (other_id = agent_id) then false
             else bool_decide (position other_state = cell /\
                               direction other_state <> current_dir_flag))
          (map_to_list agent_states).

Definition opp_dir_mask (agent_id : Z) : M (gmap string attr) (list bool) :=
  let! v := getattr "agent_states" in
  let! agent_states := as_states v in
  match agent_states !! agent_id with
  | None => raise KeyError
  | Some me =>
      let current_pos := position me in
      let current_dir_flag := direction me in
      let neighbours := neighbour_coords current_pos in
      let mask := replicate 8 false in
      let! g := getattr "grid_size" in
      let! grid_size := as_int g in
      for_enum (fun i '(nx, ny) mask =>
          if decide (0 <= nx < grid_size /\ 0 <= ny < grid_size) then
            if opposite_at agent_states agent_id current_dir_flag (nx, ny)
            then setitem mask i true
            else ret mask
          else setitem mask i false)
        0%nat neighbours mask
  end.

(** A [GridWorldEnv] instance as the sensor sees it: the attributes assigned
    by [__init__] and [reset], and the methods of the class. *)
Definition env_object (e : Grid.GridWorldEnv) : gmap string attr :=
  let pair_of (p : Grid.pos) := [fst p; snd p] in
  list_to_map
    [ ("grid_size", AInt (Grid.grid_size e));
      ("num_agents", AInt (Grid.num_agents e));
      ("collision_penalty", AFloat (Grid.collision_penalty e));
      ("delivery_reward", AFloat (Grid.delivery_reward e));
      ("location_A", APair (pair_of (Grid.location_A e)));
      ("location_B", APair (pair_of (Grid.location_B e)));
      ("agent_positions", APairs (pair_of <$> Grid.agent_positions e));
      ("carrying", AInts (Grid.carrying e));
      ("directions", AInts (Grid.directions e));
      ("steps", AInt (Grid.steps e));
      ("total_reward", AFloat (Grid.total_reward e));
      ("total_collisions", AInt (Grid.total_collisions e));
      ("total_deliveries", AInt (Grid.total_deliveries e));
      ("reset", AMethod); ("step", AMethod); ("render", AMethod);
      ("_random_position", AMethod); ("_get_next_position", AMethod);
      ("_detect_collisions", AMethod); ("_is_at_location_A", AMethod);
      ("_is_at_location_B", AMethod); ("_get_observations", AMethod) ]%string.

(** The eight neighbours by name, the offset of each and the position of its
    bit in the mask (NW, N, NE, W, E, SW, S, SE). *)
Inductive compass : Type :=
  | NorthWest | North | NorthEast | West | East | SouthWest | South | SouthEast.

Definition compass_offset (d : compass) : Z * Z :=
  match d with
  | NorthWest => (-1, -1) | North => (-1, 0) | NorthEast => (-1, 1)
  | West => (0, -1) | East => (0, 1)
  | SouthWest => (1, -1) | South => (1, 0) | SouthEast => (1, 1)
  end.

Definition compass_bit (d : compass) : nat :=
  match d with
  | NorthWest => 0 | North => 1 | NorthEast => 2
  | West => 3 | East => 4
  | SouthWest => 5 | South => 6 | SouthEast => 7
  end%nat.

(** The neighbour on the other side. *)
Definition compass_opposite (d : compass) : compass :=
  match d with
  | NorthWest => SouthEast | North => South | NorthEast => SouthWest
  | West => East | East => West
  | SouthWest => NorthEast | South => North | SouthEast => NorthWest
  end.

(** The bit the sensor computes for one neighbour cell. *)
Definition mask_bit (agent_states : gmap Z agent_state) (grid_size agent_id : Z)
    (current_dir_flag : Z) (cell : Pos) : bool :=
  bool_decide (0 <= fst cell < grid_size /\ 0 <= snd cell < grid_size)
  && opposite_at agent_states agent_id current_dir_flag cell.

End Sensors.

(** ** gridworld/config.py *)

Module Config.

(** [class Dir(Enum)] *)
Inductive Dir : Type := N | S | E | W.

(** [Dir.vector] *)
Definition vector (d : Dir) : Z * Z :=
  match d with
  | N => (-1, 0)
  | S => (1, 0)
  | E => (0, 1)
  | W => (0, -1)
  end.

(** The direction an action code of [gridworld.Action] names. *)
Definition action_dir (a : Z) : option Dir :=
  if decide (a = Grid.NORTH) then Some N
  else if decide (a = Grid.SOUTH) then Some S
  else if decide (a = Grid.WEST) then Some W
  else if decide (a = Grid.EAST) then Some E
  else None.

End Config.

(** * Properties *)

(** ** The monad *)

Section MonadFacts.
Context {St : Type}.

Lemma bind_ok {A B} (m : M St A) (k : A -> M St B) s a s' :
  m s = (Ok a, s') -> bind m k s = k a s'.
Proof. unfold bind. intros ->. reflexivity. Qed.

Lemma bind_err {A B} (m : M St A) (k : A -> M St B) s e s' :
  m s = (Err e, s') -> bind m k s = (Err e, s').
Proof. unfold bind. intros ->. reflexivity. Qed.

Lemma bind_get {B} (k : St -> M St B) s : bind get k s = k s s.
Proof. reflexivity. Qed.

Lemma bind_modify {B} (f : St -> St) (k : unit -> M St B) s :
  bind (modify f) k s = k tt (f s).
Proof. reflexivity. Qed.

Lemma bind_ret {A B} (a : A) (k : A -> M St B) s : bind (ret a) k s = k a s.
Proof. reflexivity. Qed.

Lemma bind_assoc {A B C} (m : M St A) (f : A -> M St B) (g : B -> M St C) s :
  bind (bind m f) g s = bind m (fun x => bind (f x) g) s.
Proof. unfold bind. destruct (m s) as [[a|e] s']; reflexivity. Qed.

Lemma getitem_ok {A} (l : list A) i x (s : St) :
  l !! i = Some x -> getitem l i s = (Ok x, s).
Proof. unfold getitem. intros ->. reflexivity. Qed.

Lemma setitem_ok {A} (l : list A) i x (s : St) :
  (i < length l)%nat -> setitem l i x s = (Ok (<[i:=x]> l), s).
Proof. unfold setitem. intros H. rewrite decide_True by exact H. reflexivity. Qed.

(** A loop whose body neither raises nor writes the state is a fold. *)
Lemma for_each_pure {A B} (body : A -> B -> M St B) (f : A -> B -> B) s l :
  (forall x acc, x ∈ l -> body x acc s = (Ok (f x acc), s)) ->
  forall acc, for_each body l acc s = (Ok (fold_left (fun acc x => f x acc) l acc), s).
Proof.
  induction l as [|x l IH]; intros Hbody acc; simpl.
  - reflexivity.
  - erewrite bind_ok by (apply Hbody; left).
    apply IH. intros y acc' Hy. apply Hbody. right. exact Hy.
Qed.
End MonadFacts.


(** ** The scheduler *)

Section SchedulerFacts.
Import Scheduler.

Lemma clock_after_0 ids : clock_after ids 0 = __init__ ids.
Proof.
  unfold clock_after, __init__, itertools_cycle.
  rewrite decide_True by lia. rewrite drop_0, take_0. reflexivity.
Qed.

Lemma replay_index (n i : nat) :
  (i < n)%nat ->
  (if decide (n <= S i)%nat then 0%nat else S i) = (S i mod n)%nat.
Proof.
  intros Hi. case_decide as Hn.
  - assert (S i = n) as -> by lia. symmetry. apply Nat.Div0.mod_same.
  - symmetry. apply Nat.mod_small. lia.
Qed.

Lemma cycle_next_drain x rest sv i :
  cycle_next (mkCycle (Some (x :: rest)) sv i)
  = (Ok x, mkCycle (Some rest) (sv ++ [x]) i).
Proof. reflexivity. Qed.

Lemma cycle_next_replay o sv i x :
  o = Some [] \/ o = None ->
  sv !! i = Some x ->
  cycle_next (mkCycle o sv i) = (Ok x, mkCycle None sv (S i mod length sv)).
Proof.
  intros Ho Hx.
  assert (i < length sv)%nat as Hi by (eapply lookup_lt_Some; exact Hx).
  unfold cycle_next. rewrite bind_get.
  destruct Ho as [-> | ->]; cbn [it saved index]; unfold cycle_replay;
    cbn [it saved index]; rewrite Hx, (replay_index _ _ Hi); reflexivity.
Qed.

Lemma next_clock_after (ids : list Z) (j : nat) (x : Z) :
  ids !! (j mod length ids)%nat = Some x ->
  __next__ (clock_after ids j) = (Ok x, clock_after ids (S j)).
Proof.
  intros Hx.
  assert (0 < length ids)%nat as Hpos.
  { apply lookup_lt_Some in Hx. lia. }
  unfold clock_after, __next__.
  destruct (decide (j <= length ids)%nat) as [Hj|Hj]; cbn [_cycle agent_ids].
  - destruct (decide (j = length ids)) as [->|Hne].
    + (* the list iterator is found exhausted: first replayed item *)
      rewrite Nat.Div0.mod_same in Hx.
      rewrite decide_False by lia.
      rewrite drop_all, firstn_all.
      rewrite (cycle_next_replay (Some []) ids 0 x) by (auto; exact Hx).
      replace (S (length ids)) with (1 + length ids)%nat by lia.
      rewrite Nat.Div0.add_mod, Nat.Div0.mod_same, Nat.add_0_r.
      rewrite Nat.Div0.mod_mod. reflexivity.
    + rewrite Nat.mod_small in Hx by lia.
      rewrite decide_True by lia.
      rewrite (drop_S _ _ _ Hx), cycle_next_drain.
      rewrite (take_S_r _ _ _ Hx). reflexivity.
  - rewrite decide_False by lia.
    rewrite (cycle_next_replay None ids _ x) by (auto; exact Hx).
    replace (S (j mod length ids)) with (1 + j mod length ids)%nat by lia.
    rewrite Nat.Div0.add_mod_idemp_r. reflexivity.
Qed.

Lemma nth_call_clock_after (ids : list Z) (k j : nat) (x : Z) :
  ids <> [] ->
  ids !! ((j + k) mod length ids)%nat = Some x ->
  nth_call k (clock_after ids j) = (Ok x, clock_after ids (S (j + k))).
Proof.
  intros Hne. revert j.
  induction k as [|k IH]; intros j Hx; simpl.
  - rewrite Nat.add_0_r in *. apply next_clock_after. exact Hx.
  - destruct (lookup_lt_is_Some_2 ids (j mod length ids)%nat) as [y Hy].
    { apply Nat.mod_upper_bound. destruct ids; [congruence | simpl; lia]. }
    erewrite bind_ok by (apply next_clock_after; exact Hy).
    replace (S (j + S k)) with (S (S j + k)) by lia.
    apply IH. replace (S j + k)%nat with (j + S k)%nat by lia. exact Hx.
Qed.

Lemma shuffle_explicit_restarts rng (order : list Z) (c : CentralClock) :
  list_to_set order =@{gset Z} list_to_set (agent_ids c) ->
  shuffle rng (Some order) c = (Ok tt, __init__ order).
Proof.
  intros Hset. unfold shuffle. rewrite bind_get.
  rewrite bool_decide_true by exact Hset. reflexivity.
Qed.

(** C10. For a non-empty identifier list the [k]-th call (0-indexed, from
    construction) yields [agent_ids[k mod len(agent_ids)]]; after an
    accepted reorder the calls yield the new order cyclically from its
    first element; [CentralClock([0,1,2,3])] yields 0,1,2,3,0,1,... and
    after [shuffle([3,1,0,2])] the next eight calls yield
    3,1,0,2,3,1,0,2. *)
Theorem clock_is_cyclic :
  (forall (ids : list Z) (k : nat), ids <> [] ->
     exists x, ids !! (k mod length ids)%nat = Some x /\
               fst (nth_call k (__init__ ids)) = Ok x) /\
  (forall rng (c : CentralClock) (order : list Z) (k : nat),
     order <> [] ->
     fst (shuffle rng (Some order) c) = Ok tt ->
     exists x, order !! (k mod length order)%nat = Some x /\
               fst (nth_call k (snd (shuffle rng (Some order) c))) = Ok x) /\
  fst (take_calls 6 (__init__ [0; 1; 2; 3])) = Ok [0; 1; 2; 3; 0; 1] /\
  (let c := snd (take_calls 6 (__init__ [0; 1; 2; 3])) in
   let c' := snd (shuffle (fun l => l) (Some [3; 1; 0; 2]) c) in
   fst (take_calls 8 c') = Ok [3; 1; 0; 2; 3; 1; 0; 2]).
Proof.
  assert (forall (ids : list Z) (k : nat), ids <> [] ->
     exists x, ids !! (k mod length ids)%nat = Some x /\
               fst (nth_call k (__init__ ids)) = Ok x) as Hcyc.
  { intros ids k Hne.
    destruct (lookup_lt_is_Some_2 ids (k mod length ids)%nat) as [x Hx].
    { apply Nat.mod_upper_bound. destruct ids; [congruence | simpl; lia]. }
    exists x. split; [exact Hx|].
    rewrite <- clock_after_0.
    rewrite (nth_call_clock_after ids k 0 x Hne Hx). reflexivity. }
  split; [exact Hcyc|]. split; [|split].
  - intros rng c order k Hne Hok.
    assert (list_to_set order =@{gset Z} list_to_set (agent_ids c)) as Hset.
    { unfold shuffle in Hok. rewrite bind_get in Hok.
      destruct (decide (list_to_set order =@{gset Z} list_to_set (agent_ids c)))
        as [Heq|Hneq]; [exact Heq|].
      rewrite bool_decide_false in Hok by exact Hneq. discriminate Hok. }
    rewrite (shuffle_explicit_restarts rng order c Hset). simpl.
    apply Hcyc. exact Hne.
  - vm_compute. reflexivity.
  - vm_compute. reflexivity.
Qed.

(** C6 (the code departs from it). [shuffle] compares the two lists as
    sets, so an order that repeats an identifier is accepted although it
    is not a permutation of the identifier list, and the clock then hands
    out agent 0 twice per round. *)
Theorem shuffle_accepts_duplicate_order :
  ~ ([0; 0; 1; 2; 3] ≡ₚ [0; 1; 2; 3]) /\
  shuffle (fun l => l) (Some [0; 0; 1; 2; 3]) (__init__ [0; 1; 2; 3])
    = (Ok tt, __init__ [0; 0; 1; 2; 3]) /\
  fst (take_calls 5 (__init__ [0; 0; 1; 2; 3])) = Ok [0; 0; 1; 2; 3].
Proof.
  split; [|split].
  - intros Hperm. apply Permutation_length in Hperm. discriminate Hperm.
  - apply shuffle_explicit_restarts. vm_compute. reflexivity.
  - vm_compute. reflexivity.
Qed.

(** What [shuffle] does check: an order is accepted exactly when it has
    the same set of identifiers as the current list. *)
Lemma shuffle_accepts_iff_same_set rng (order : list Z) (c : CentralClock) :
  fst (shuffle rng (Some order) c) = Ok tt <->
  list_to_set order =@{gset Z} list_to_set (agent_ids c).
Proof.
  split.
  - intros Hok. unfold shuffle in Hok. rewrite bind_get in Hok.
    destruct (decide (list_to_set order =@{gset Z} list_to_set (agent_ids c)))
      as [Heq|Hneq]; [exact Heq|].
    rewrite bool_decide_false in Hok by exact Hneq. discriminate Hok.
  - intros Hset. rewrite (shuffle_explicit_restarts rng order c Hset). reflexivity.
Qed.
End SchedulerFacts.

(** ** The occupancy sensor *)

Section SensorFacts.
Import Sensors.

Lemma getattr_ok (o : gmap string attr) name v :
  o !! name = Some v -> getattr name o = (Ok v, o).
Proof. unfold getattr. rewrite bind_get. intros ->. reflexivity. Qed.

Lemma getattr_missing (o : gmap string attr) name :
  o !! name = None -> getattr name o = (Err AttributeError, o).
Proof. unfold getattr. rewrite bind_get. intros ->. reflexivity. Qed.

Lemma opposite_at_true (agent_states : gmap Z agent_state) agent_id flag cell :
  opposite_at agent_states agent_id flag cell = true <->
  exists other st, other <> agent_id /\ agent_states !! other = Some st /\
                   position st = cell /\ direction st <> flag.
Proof.
  unfold opposite_at. rewrite existsb_exists. split.
  - intros [[other st] [Hin Hf]].
    apply list_elem_of_In, elem_of_map_to_list in Hin.
    destruct (decide (other = agent_id)) as [|Hne]; [discriminate Hf|].
    apply bool_decide_eq_true in Hf. destruct Hf as [Hp Hd].
    exists other, st. auto.
  - intros (other & st & Hne & Hlook & Hp & Hd).
    exists (other, st). split.
    + apply list_elem_of_In, elem_of_map_to_list. exact Hlook.
    + rewrite decide_False by exact Hne.
      apply bool_decide_eq_true. auto.
Qed.

(** The loop over the neighbours, started at bit [i] on a mask whose bits
    from [i] on are still [False]. *)
Lemma mask_loop (agent_states : gmap Z agent_state) agent_id flag grid_size
    (o : gmap string attr) (cells : list Pos) :
  forall (i : nat) (mask : list bool),
    (i + length cells <= length mask)%nat ->
    (forall j, (i <= j)%nat -> (j < length mask)%nat -> mask !! j = Some false) ->
    exists mask',
      for_enum (fun i '(nx, ny) mask =>
          if decide (0 <= nx < grid_size /\ 0 <= ny < grid_size) then
            if opposite_at agent_states agent_id flag (nx, ny)
            then setitem mask i true
            else ret mask
          else setitem mask i false) i cells mask o = (Ok mask', o) /\
      length mask' = length mask /\
      forall k cell, cells !! k = Some cell ->
        mask' !! (i + k)%nat =
          Some (bool_decide (0 <= fst cell < grid_size /\ 0 <= snd cell < grid_size)
                && opposite_at agent_states agent_id flag cell).
Proof.
  induction cells as [|[nx ny] cells IH]; intros i mask Hlen Hfalse.
  - exists mask. split; [reflexivity|]. split; [reflexivity|].
    intros k cell Hk. rewrite lookup_nil in Hk. discriminate Hk.
  - simpl in Hlen.
    set (b := bool_decide (0 <= nx < grid_size /\ 0 <= ny < grid_size)
              && opposite_at agent_states agent_id flag (nx, ny)).
    assert (exists mask1,
      (if decide (0 <= nx < grid_size /\ 0 <= ny < grid_size) then
         if opposite_at agent_states agent_id flag (nx, ny)
         then setitem mask i true else ret mask
       else setitem mask i false) o = (Ok mask1, o) /\
      mask1 = <[i:=b]> mask) as (mask1 & Hbody & Hmask1).
    { subst b. destruct (decide (0 <= nx < grid_size /\ 0 <= ny < grid_size)) as [Hin|Hout].
      - rewrite bool_decide_true by exact Hin.
        destruct (opposite_at agent_states agent_id flag (nx, ny)); simpl.
        + eexists. split; [apply setitem_ok; lia | reflexivity].
        + exists mask. split; [reflexivity|].
          symmetry. apply list_insert_id. apply Hfalse; lia.
      - rewrite bool_decide_false by exact Hout. simpl.
        eexists. split; [apply setitem_ok; lia | reflexivity]. }
    destruct (IH (S i) mask1) as (mask' & Hloop & Hlen' & Hbits).
    + subst mask1. rewrite length_insert. lia.
    + intros j Hj Hjlen. subst mask1. rewrite length_insert in Hjlen.
      rewrite list_lookup_insert_ne by lia. apply Hfalse; lia.
    + exists mask'. split; [|split].
      * cbn [for_enum]. erewrite bind_ok by exact Hbody. exact Hloop.
      * rewrite Hlen'. subst mask1. apply length_insert.
      * intros k cell Hk. destruct k as [|k].
        -- simpl in Hk. injection Hk as <-. rewrite Nat.add_0_r.
           (* bit [i] is not touched by the rest of the loop *)
           clear Hbits.
           assert (forall (cs : list Pos) (s : nat) (m : list bool),
             (i < s)%nat ->
             forall m', for_enum (fun i '(nx, ny) mask =>
                 if decide (0 <= nx < grid_size /\ 0 <= ny < grid_size) then
                   if opposite_at agent_states agent_id flag (nx, ny)
                   then setitem mask i true
                   else ret mask
                 else setitem mask i false) s cs m o = (Ok m', o) ->
             m' !! i = m !! i) as Hframe.
           { clear. induction cs as [|[cx cy] cs IHcs]; intros s m Hs m' Hrun.
             - simpl in Hrun. injection Hrun as <-. reflexivity.
             - cbn [for_enum] in Hrun. unfold bind in Hrun.
               destruct (decide (0 <= cx < grid_size /\ 0 <= cy < grid_size)).
               + destruct (opposite_at agent_states agent_id flag (cx, cy)).
                 * unfold setitem in Hrun. case_decide; [|discriminate Hrun].
                   simpl in Hrun. rewrite (IHcs _ _ (Nat.lt_lt_succ_r _ _ Hs) _ Hrun).
                   apply list_lookup_insert_ne. lia.
                 * simpl in Hrun. apply (IHcs _ _ (Nat.lt_lt_succ_r _ _ Hs) _ Hrun).
               + unfold setitem in Hrun. case_decide; [|discriminate Hrun].
                 simpl in Hrun. rewrite (IHcs _ _ (Nat.lt_lt_succ_r _ _ Hs) _ Hrun).
                 apply list_lookup_insert_ne. lia. }
           rewrite (Hframe cells (S i) mask1 (Nat.lt_succ_diag_r i) mask' Hloop).
           subst mask1. apply list_lookup_insert_eq. lia.
        -- simpl in Hk. replace (i + S k)%nat with (S i + k)%nat by lia.
           apply Hbits. exact Hk.
Qed.

(** C8. On an object holding a table of agent states that contains the
    queried agent, the sensor returns 8 booleans, one per neighbour in the
    order NW, N, NE, W, E, SW, S, SE. A bit is true exactly when its cell
    lies inside the grid and some other agent of the table stands on that
    cell with a direction flag different from the querying agent's. The
    object is left as it was. *)
Theorem opp_dir_mask_spec (o : gmap string attr) (agent_states : gmap Z agent_state)
    (grid_size agent_id : Z) (me : agent_state) :
  o !! "agent_states"%string = Some (AStates agent_states) ->
  o !! "grid_size"%string = Some (AInt grid_size) ->
  agent_states !! agent_id = Some me ->
  exists mask,
    opp_dir_mask agent_id o = (Ok mask, o) /\
    length mask = 8%nat /\
    forall d : compass,
      let cell := (fst (position me) + fst (compass_offset d),
                   snd (position me) + snd (compass_offset d)) in
      exists b, mask !! compass_bit d = Some b /\
        (b = true <->
           (0 <= fst cell < grid_size /\ 0 <= snd cell < grid_size) /\
           exists other st, other <> agent_id /\
             agent_states !! other = Some st /\
             position st = cell /\ direction st <> direction me).
Proof.
  intros Hstates Hgrid Hme.
  destruct (mask_loop agent_states agent_id (direction me) grid_size o
              (neighbour_coords (position me)) 0 (replicate 8 false))
    as (mask & Hloop & Hlen & Hbits).
  { destruct (position me). simpl. lia. }
  { intros j _ Hj. apply lookup_replicate_2. rewrite length_replicate in Hj. exact Hj. }
  exists mask. split; [|split].
  - unfold opp_dir_mask.
    erewrite bind_ok by (apply getattr_ok; exact Hstates).
    cbn [as_states]. rewrite bind_ret, Hme.
    erewrite bind_ok by (apply getattr_ok; exact Hgrid).
    cbn [as_int]. rewrite bind_ret. exact Hloop.
  - rewrite Hlen. apply length_replicate.
  - intros d cell.
    assert (neighbour_coords (position me) !! compass_bit d = Some cell) as Hcell.
    { subst cell. destruct (position me) as [x y].
      destruct d; simpl; repeat f_equal; lia. }
    specialize (Hbits _ _ Hcell). simpl in Hbits.
    eexists. split; [exact Hbits|].
    rewrite andb_true_iff, bool_decide_eq_true, opposite_at_true. reflexivity.
Qed.

Lemma opp_dir_mask_witness :
  exists mask,
    opp_dir_mask 0
      (list_to_map [("agent_states"%string,
                     AStates (list_to_map [(0, mkAgentState (2, 2) 0);
                                           (1, mkAgentState (1, 1) 1)]));
                    ("grid_size"%string, AInt 5)])
    = (Ok mask,
       list_to_map [("agent_states"%string,
                     AStates (list_to_map [(0, mkAgentState (2, 2) 0);
                                           (1, mkAgentState (1, 1) 1)]));
                    ("grid_size"%string, AInt 5)]) /\
    length mask = 8%nat.
Proof.
  destruct (opp_dir_mask_spec
              (list_to_map [("agent_states"%string,
                     AStates (list_to_map [(0, mkAgentState (2, 2) 0);
                                           (1, mkAgentState (1, 1) 1)]));
                    ("grid_size"%string, AInt 5)])
              (list_to_map [(0, mkAgentState (2, 2) 0); (1, mkAgentState (1, 1) 1)])
              5 0 (mkAgentState (2, 2) 0))
    as (mask & Hrun & Hlen & _).
  - reflexivity.
  - reflexivity.
  - reflexivity.
  - exists mask. split; [exact Hrun | exact Hlen].
Defined.

(** The example of the specification: agent 0 at (2,2) outbound, agent 1
    at (1,1) returning, on the 5x5 grid. *)
Example opp_dir_mask_north_west :
  fst (opp_dir_mask 0
         (list_to_map [("agent_states"%string,
                        AStates (list_to_map [(0, mkAgentState (2, 2) 0);
                                              (1, mkAgentState (1, 1) 1)]));
                       ("grid_size"%string, AInt 5)]))
  = Ok [true; false; false; false; false; false; false; false].
Proof. vm_compute. reflexivity. Qed.

Lemma env_object_has_no_agent_states (e : Grid.GridWorldEnv) :
  env_object e !! "agent_states"%string = None.
Proof.
  unfold env_object. cbn [list_to_map foldr].
  repeat (rewrite lookup_insert_ne by (intros H; discriminate H)).
  apply lookup_empty.
Qed.

(** C9. On an environment instance the sensor never returns a mask: the
    first thing it does is read the attribute [agent_states], which the
    environment does not have (it keeps [agent_positions], [carrying] and
    [directions]), so every call raises, whatever the agent asked for. *)
Theorem opp_dir_mask_fails_on_environment (e : Grid.GridWorldEnv) (agent_id : Z) :
  opp_dir_mask agent_id (env_object e) = (Err AttributeError, env_object e).
Proof.
  unfold opp_dir_mask.
  apply bind_err, getattr_missing, env_object_has_no_agent_states.
Qed.
End SensorFacts.

(** ** The environment: collision detection *)

Section CollisionFacts.
Import Grid.

(** *** The dictionary of groups *)

Lemma dict_append_keys (d : pos_dict) p i q :
  q ∈ (dict_append d p i).*1 <-> q ∈ d.*1 \/ q = p.
Proof.
  induction d as [|[q0 a0] d IH]; simpl.
  - rewrite list_elem_of_singleton, elem_of_nil. tauto.
  - case_decide as Hq; simpl; rewrite !elem_of_cons.
    + subst q0. split; [tauto|]. intros [H|H]; [exact H | left; exact H].
    + rewrite IH. tauto.
Qed.

Lemma dict_append_NoDup (d : pos_dict) p i :
  NoDup d.*1 -> NoDup (dict_append d p i).*1.
Proof.
  induction d as [|[q0 a0] d IH]; simpl; intros Hnd.
  - apply NoDup_singleton.
  - apply NoDup_cons in Hnd as [Hnotin Hnd].
    case_decide as Hq; simpl; apply NoDup_cons.
    + split; assumption.
    + split; [|apply IH; exact Hnd].
      rewrite dict_append_keys. intros [H|H]; [apply Hnotin, H | apply Hq, H].
Qed.

Lemma dict_append_entries (d : pos_dict) p i q agents :
  NoDup d.*1 ->
  (q, agents) ∈ dict_append d p i ->
  (q <> p /\ (q, agents) ∈ d) \/
  (q = p /\ exists before, agents = before ++ [i] /\
              ((p, before) ∈ d \/ ((p ∉ d.*1) /\ before = []))).
Proof.
  induction d as [|[q0 a0] d IH]; simpl; intros Hnd Hin.
  - apply list_elem_of_singleton in Hin. injection Hin as -> ->.
    right. split; [reflexivity|]. exists []. split; [reflexivity|].
    right. split; [apply not_elem_of_nil | reflexivity].
  - apply NoDup_cons in Hnd as [Hnotin Hnd].
    case_decide as Hq.
    + subst q0. apply elem_of_cons in Hin as [Hin|Hin].
      * injection Hin as -> ->. right. split; [reflexivity|].
        exists a0. split; [reflexivity|]. left. left.
      * left. split; [|right; exact Hin].
        intros ->. apply Hnotin.
        apply list_elem_of_fmap. exists (p, agents). split; [reflexivity | exact Hin].
    + apply elem_of_cons in Hin as [Hin|Hin].
      * injection Hin as -> ->. left. split; [exact Hq | left].
      * destruct (IH Hnd Hin) as [[Hne Hd] | [-> (before & -> & Hb)]].
        -- left. split; [exact Hne | right; exact Hd].
        -- right. split; [reflexivity|]. exists before. split; [reflexivity|].
           destruct Hb as [Hb | [Hb ->]].
           ++ left. right. exact Hb.
           ++ right. split; [|reflexivity].
              simpl. rewrite elem_of_cons. intros [H|H]; [apply Hq; symmetry; exact H | apply Hb, H].
Qed.

Lemma dict_append_grouped (d : pos_dict) (pre : list pos) p :
  grouped d pre -> grouped (dict_append d p (length pre)) (pre ++ [p]).
Proof.
  intros (Hnd & Hmem & Hkeys). split; [|split].
  - apply dict_append_NoDup, Hnd.
  - intros q agents Hin i.
    rewrite lookup_snoc_Some.
    destruct (dict_append_entries d p (length pre) q agents Hnd Hin)
      as [[Hne Hd] | [-> (before & -> & Hb)]].
    + rewrite (Hmem q agents Hd i). split.
      * intros Hi. left. split; [eapply lookup_lt_Some; exact Hi | exact Hi].
      * intros [[_ Hi] | [_ Hp]]; [exact Hi | congruence].
    + rewrite elem_of_app, list_elem_of_singleton.
      destruct Hb as [Hb | [Hb ->]].
      * rewrite (Hmem p before Hb i). split.
        -- intros [Hi | ->]; [left; split; [eapply lookup_lt_Some; exact Hi | exact Hi] | right; auto].
        -- intros [[_ Hi] | [-> _]]; [left; exact Hi | right; reflexivity].
      * rewrite elem_of_nil. split.
        -- intros [[] | ->]. right; auto.
        -- intros [[_ Hi] | [-> _]]; [|right; reflexivity].
           exfalso. apply Hb. eapply Hkeys. exact Hi.
  - intros i q Hi. apply dict_append_keys.
    apply lookup_snoc_Some in Hi as [[_ Hi] | [_ ->]].
    + left. eapply Hkeys. exact Hi.
    + right. reflexivity.
Qed.

Lemma group_positions_grouped (l : list pos) :
  forall (pre : list pos) (d : pos_dict),
    grouped d pre -> grouped (group_positions (length pre) l d) (pre ++ l).
Proof.
  induction l as [|p l IH]; intros pre d Hg; simpl.
  - rewrite app_nil_r. exact Hg.
  - replace (pre ++ p :: l) with ((pre ++ [p]) ++ l) by (rewrite <- app_assoc; reflexivity).
    replace (S (length pre)) with (length (pre ++ [p])) by (rewrite length_app; simpl; lia).
    apply IH, dict_append_grouped, Hg.
Qed.

Lemma group_positions_spec (next_positions : list pos) :
  grouped (group_positions 0 next_positions []) next_positions.
Proof.
  apply (group_positions_grouped next_positions [] []).
  split; [apply NoDup_nil_2 | split].
  - intros p agents Hin. apply elem_of_nil in Hin. destruct Hin.
  - intros i p Hi. rewrite lookup_nil in Hi. discriminate Hi.
Qed.

(** *** The scan of one group *)

Lemma scan_legs (e : GridWorldEnv) (agents : list nat) :
  (forall a, a ∈ agents -> (a < length (directions e))%nat) ->
  forall flags,
    for_each scan_leg agents flags e
    = (Ok (fst flags || existsb (heads_out (directions e)) agents,
           snd flags || existsb (heads_back (directions e)) agents), e).
Proof.
  induction agents as [|a agents IH]; intros Hrange [f0 f1]; simpl.
  - rewrite !orb_false_r. reflexivity.
  - destruct (lookup_lt_is_Some_2 (directions e) a) as [d Hd].
    { apply Hrange. left. }
    assert (scan_leg a (f0, f1) e
            = (Ok (f0 || heads_out (directions e) a,
                   f1 || heads_back (directions e) a), e)) as Hone.
    { unfold scan_leg, heads_out, heads_back. rewrite bind_get.
      erewrite bind_ok by (apply getitem_ok; exact Hd).
      rewrite Hd. destruct (decide (d = 0)) as [Hz|Hz].
      - rewrite (bool_decide_true _ Hz).
        rewrite bool_decide_false by (intros H; apply H, Hz).
        simpl. rewrite orb_true_r, orb_false_r. reflexivity.
      - rewrite (bool_decide_false _ Hz), (bool_decide_true _ Hz).
        simpl. rewrite orb_true_r, orb_false_r. reflexivity. }
    erewrite bind_ok by exact Hone.
    rewrite IH by (intros b Hb; apply Hrange; right; exact Hb).
    simpl. rewrite !orb_assoc. reflexivity.
Qed.

Lemma check_group_spec (e : GridWorldEnv) (entry : pos * list nat) (acc : gset nat) :
  (forall a, a ∈ entry.2 -> (a < length (directions e))%nat) ->
  check_group entry acc e
  = (Ok (if group_collides e entry then acc ∪ list_to_set entry.2 else acc), e).
Proof.
  destruct entry as [p agents]. simpl. intros Hrange.
  unfold check_group, group_collides. simpl. rewrite bind_get.
  destruct (decide (p = location_A e \/ p = location_B e)) as [Hsite|Hsite].
  { rewrite bool_decide_false by (intros H; apply H, Hsite). reflexivity. }
  rewrite (bool_decide_true _ Hsite).
  destruct (decide (length agents <= 1)%nat) as [Hone|Hmany].
  { rewrite bool_decide_false by (intros H; apply H, Hone). reflexivity. }
  rewrite (bool_decide_true _ Hmany).
  erewrite bind_ok by (apply scan_legs; exact Hrange).
  simpl. destruct (existsb _ agents && existsb _ agents); reflexivity.
Qed.

Lemma elem_of_marked_groups (e : GridWorldEnv) (d : pos_dict) :
  forall (acc : gset nat) (i : nat),
    i ∈ fold_left (fun acc entry =>
                     if group_collides e entry then acc ∪ list_to_set entry.2 else acc)
                  d acc
    <-> i ∈ acc \/ exists entry, entry ∈ d /\ group_collides e entry = true /\ i ∈ entry.2.
Proof.
  induction d as [|entry d IH]; intros acc i; simpl.
  - split; [auto|]. intros [H | (entry & Hin & _)]; [exact H|].
    apply elem_of_nil in Hin. destruct Hin.
  - rewrite IH. split.
    + intros [Hacc | (entry' & Hin & Hc & Hi)].
      * destruct (group_collides e entry) eqn:Hc; [|left; exact Hacc].
        apply elem_of_union in Hacc as [Hacc|Hacc]; [left; exact Hacc|].
        right. exists entry. split; [left|]. split; [exact Hc|].
        apply elem_of_list_to_set in Hacc. exact Hacc.
      * right. exists entry'. split; [right; exact Hin | auto].
    + intros [Hacc | (entry' & Hin & Hc & Hi)].
      * left. destruct (group_collides e entry); [apply elem_of_union; left|]; exact Hacc.
      * apply elem_of_cons in Hin as [->|Hin].
        -- left. rewrite Hc. apply elem_of_union. right.
           apply elem_of_list_to_set. exact Hi.
        -- right. exists entry'. auto.
Qed.

(** *** [_detect_collisions] *)

Lemma detect_collisions_spec (e : GridWorldEnv) (next_positions : list pos) :
  (length next_positions <= length (directions e))%nat ->
  exists collisions,
    _detect_collisions next_positions e = (Ok collisions, e) /\
    forall i, i ∈ collisions <-> head_on e next_positions i.
Proof.
  intros Hlen.
  destruct (group_positions_spec next_positions) as (Hnd & Hmem & Hkeys).
  set (d := group_positions 0 next_positions []) in *.
  assert (forall entry, entry ∈ d ->
            forall a, a ∈ entry.2 -> (a < length (directions e))%nat) as Hrange.
  { intros [p agents] Hin a Ha. simpl in Ha.
    apply (Hmem p agents Hin) in Ha. apply lookup_lt_Some in Ha. lia. }
  eexists. split.
  - unfold _detect_collisions. fold d.
    apply (for_each_pure check_group
             (fun entry acc =>
                if group_collides e entry then acc ∪ list_to_set entry.2 else acc)).
    intros entry acc Hin. apply check_group_spec, Hrange, Hin.
  - intros i. rewrite elem_of_marked_groups. split.
    + intros [Hempty | ([p agents] & Hin & Hc & Hi)].
      { apply elem_of_empty in Hempty. destruct Hempty. }
      simpl in Hi. unfold group_collides in Hc. simpl in Hc.
      apply andb_true_iff in Hc as [Hc Hlegs].
      apply andb_true_iff in Hc as [Hsite _].
      apply andb_true_iff in Hlegs as [Hout Hback].
      apply bool_decide_eq_true in Hsite.
      apply existsb_exists in Hout as (j & Hj & Hjout).
      apply existsb_exists in Hback as (k & Hk & Hkback).
      apply list_elem_of_In in Hj, Hk.
      exists p. split; [apply (Hmem p agents Hin), Hi|].
      split; [intros ->; apply Hsite; left; reflexivity|].
      split; [intros ->; apply Hsite; right; reflexivity|].
      split.
      * exists j. split; [apply (Hmem p agents Hin), Hj|].
        unfold heads_out in Hjout. destruct (directions e !! j) as [dj|]; [|discriminate].
        apply bool_decide_eq_true in Hjout. subst dj. reflexivity.
      * unfold heads_back in Hkback.
        destruct (directions e !! k) as [dk|] eqn:Hdk; [|discriminate].
        apply bool_decide_eq_true in Hkback.
        exists k, dk. split; [apply (Hmem p agents Hin), Hk | auto].
    + intros (p & Hi & HA & HB & (j & Hj & Hdj) & (k & dk & Hk & Hdk & Hne)).
      right.
      destruct (proj1 (list_elem_of_fmap _ _ _) (Hkeys i p Hi)) as ([p' agents] & Hp & Hin).
      simpl in Hp. subst p'.
      exists (p, agents). split; [exact Hin|]. simpl.
      apply (Hmem p agents Hin) in Hi, Hj, Hk.
      split; [|exact Hi].
      unfold group_collides. simpl.
      rewrite bool_decide_true by (intros [H|H]; [apply HA, H | apply HB, H]).
      rewrite bool_decide_true.
      2:{ assert (j <> k) as Hjk by (intros ->; congruence).
          destruct agents as [|a1 [|a2 agents]]; simpl; [| |lia].
          - apply elem_of_nil in Hj. destruct Hj.
          - apply list_elem_of_singleton in Hj, Hk. congruence. }
      simpl. apply andb_true_iff. split; apply existsb_exists.
      * exists j. split; [apply list_elem_of_In, Hj|].
        unfold heads_out. rewrite Hdj. apply bool_decide_eq_true. reflexivity.
      * exists k. split; [apply list_elem_of_In, Hk|].
        unfold heads_back. rewrite Hdk. apply bool_decide_eq_true. exact Hne.
Qed.
End CollisionFacts.

(** ** The environment: the update loop *)

Section UpdateFacts.
Import Grid.

Lemma project_loop (e : GridWorldEnv) (actions : list Z) :
  forall (i : nat) (acc : list pos),
    (i + length actions <= length (agent_positions e))%nat ->
    for_enum project_move i actions acc e
    = (Ok (acc ++ zip_with (_get_next_position e) (drop i (agent_positions e)) actions), e).
Proof.
  induction actions as [|a actions IH]; intros i acc Hlen; simpl in *.
  - rewrite zip_with_nil_r, app_nil_r. reflexivity.
  - destruct (lookup_lt_is_Some_2 (agent_positions e) i) as [p Hp]; [lia|].
    rewrite (drop_S _ _ _ Hp). simpl.
    assert (project_move i a acc e = (Ok (acc ++ [_get_next_position e p a]), e)) as Hone.
    { unfold project_move. rewrite bind_get.
      erewrite bind_ok by (apply getitem_ok; exact Hp). reflexivity. }
    erewrite bind_ok by exact Hone.
    rewrite IH by lia. rewrite <- app_assoc. reflexivity.
Qed.

Lemma is_at_location_A_spec (e : GridWorldEnv) i p :
  agent_positions e !! i = Some p ->
  _is_at_location_A i e = (Ok (bool_decide (p = location_A e)), e).
Proof.
  intros Hp. unfold _is_at_location_A. rewrite bind_get.
  erewrite bind_ok by (apply getitem_ok; exact Hp). reflexivity.
Qed.

Lemma is_at_location_B_spec (e : GridWorldEnv) i p :
  agent_positions e !! i = Some p ->
  _is_at_location_B i e = (Ok (bool_decide (p = location_B e)), e).
Proof.
  intros Hp. unfold _is_at_location_B. rewrite bind_get.
  erewrite bind_ok by (apply getitem_ok; exact Hp). reflexivity.
Qed.

(** Runs the next statement of a method body. *)
Ltac mstep :=
  first
    [ rewrite bind_assoc
    | rewrite bind_get
    | rewrite bind_modify
    | rewrite bind_ret
    | erewrite bind_ok by (apply getitem_ok; cbn; eassumption)
    | erewrite bind_ok
        by (apply setitem_ok; cbn; eapply lookup_lt_Some; eassumption)
    | erewrite bind_ok
        by (apply is_at_location_A_spec; cbn; apply list_lookup_insert_eq;
            eapply lookup_lt_Some; eassumption)
    | erewrite bind_ok
        by (apply is_at_location_B_spec; cbn; apply list_lookup_insert_eq;
            eapply lookup_lt_Some; eassumption) ].

(** The second test of the update loop, once the first one has failed. *)
Ltac at_site_B :=
  cbn [location_A location_B set_agent_positions];
  match goal with
  | |- context [bool_decide (?q = location_B ?e)] =>
      destruct (decide (q = location_B e)) as [HB|HB];
      [rewrite (bool_decide_true _ HB) | rewrite (bool_decide_false _ HB)]
  end;
  repeat mstep;
  [ match goal with
    | |- context [bool_decide (?d = 0)] =>
        destruct (decide (d = 0)) as [Hd0|Hd0];
        [rewrite (bool_decide_true _ Hd0) | rewrite (bool_decide_false _ Hd0)]
    end;
    repeat mstep;
    [ match goal with
      | |- context [decide (?c = 1)] =>
          destruct (decide (c = 1)) as [Hc1|Hc1]
      end;
      repeat mstep;
      [ rewrite decide_True by auto; reflexivity
      | rewrite decide_False by tauto; reflexivity ]
    | rewrite decide_False by tauto; reflexivity ]
  | rewrite decide_False by tauto; reflexivity ].

(** One iteration of the update loop, for an agent whose entries exist. *)
Lemma update_agent_spec (collisions : gset nat) i q rewards (e : GridWorldEnv) p c d r :
  agent_positions e !! i = Some p ->
  carrying e !! i = Some c ->
  directions e !! i = Some d ->
  rewards !! i = Some r ->
  update_agent collisions i q rewards e
  = (Ok (update_pure collisions i q (rewards, e)).1,
     (update_pure collisions i q (rewards, e)).2).
Proof.
  intros Hp Hc Hd Hr.
  unfold update_pure. cbn [fst snd]. rewrite Hc, Hd, Hr.
  unfold classify, update_agent.
  destruct (decide (i ∈ collisions)) as [Hin|Hin].
  { repeat mstep. reflexivity. }
  do 4 mstep. cbn [location_A location_B set_agent_positions].
  destruct (decide (q = location_A e)) as [HA|HA];
    [rewrite (bool_decide_true _ HA) | rewrite (bool_decide_false _ HA)];
    repeat mstep.
  - destruct (decide (d = 1)) as [Hd1|Hd1];
      [rewrite (bool_decide_true _ Hd1) | rewrite (bool_decide_false _ Hd1)];
      repeat mstep.
    + rewrite decide_True by auto. reflexivity.
    + rewrite (decide_False (P := q = location_A e /\ d = 1)) by tauto.
      at_site_B.
  - rewrite (decide_False (P := q = location_A e /\ d = 1)) by tauto.
    at_site_B.
Qed.
End UpdateFacts.

(** ** The environment: the update loop, agent by agent *)

Section UpdateAll.
Import Grid.

Lemma same_setting_refl e : same_setting e e.
Proof. repeat split. Qed.

Lemma same_setting_trans e1 e2 e3 :
  same_setting e1 e2 -> same_setting e2 e3 -> same_setting e1 e3.
Proof. unfold same_setting. intuition congruence. Qed.

Lemma same_sizes_refl st : same_sizes st st.
Proof. repeat split. Qed.

Lemma same_sizes_trans st1 st2 st3 :
  same_sizes st1 st2 -> same_sizes st2 st3 -> same_sizes st1 st3.
Proof. unfold same_sizes. intuition congruence. Qed.

Lemma classify_setting e e' collisions i q c d :
  same_setting e e' -> classify e' collisions i q c d = classify e collisions i q c d.
Proof.
  intros (_ & _ & _ & _ & HA & HB & _). unfold classify. rewrite HA, HB. reflexivity.
Qed.

Lemma outcome_setting e e' ev p q c d r :
  same_setting e e' -> outcome e' ev p q c d r = outcome e ev p q c d r.
Proof.
  intros (_ & _ & Hp & Hr & _). unfold outcome. rewrite Hp, Hr. reflexivity.
Qed.

Lemma update_pure_setting collisions i q st :
  same_setting st.2 (update_pure collisions i q st).2 /\
  same_sizes st (update_pure collisions i q st).
Proof.
  unfold update_pure.
  destruct (carrying st.2 !! i), (directions st.2 !! i), (st.1 !! i);
    try (split; [apply same_setting_refl | apply same_sizes_refl]).
  destruct (classify st.2 collisions i q z z0); unfold same_sizes; simpl;
    rewrite ?length_insert; repeat split.
Qed.

Lemma update_pure_row_ne collisions i q st j :
  j <> i -> row (update_pure collisions i q st) j = row st j.
Proof.
  intros Hne. unfold update_pure.
  destruct (carrying st.2 !! i), (directions st.2 !! i), (st.1 !! i); try reflexivity.
  destruct (classify st.2 collisions i q z z0); unfold row; simpl;
    rewrite ?list_lookup_insert_ne by (intros Heq; apply Hne; symmetry; exact Heq);
    reflexivity.
Qed.

Lemma update_pure_row_eq collisions i q st p c d r :
  row st i = (Some p, Some c, Some d, Some r) ->
  row (update_pure collisions i q st) i
  = (let '(p', c', d', r') := outcome st.2 (classify st.2 collisions i q c d) p q c d r in
     (Some p', Some c', Some d', Some r')).
Proof.
  unfold row. intros Hrow. injection Hrow as Hp Hc Hd Hr.
  assert (i < length (agent_positions st.2))%nat by (eapply lookup_lt_Some; exact Hp).
  assert (i < length (carrying st.2))%nat by (eapply lookup_lt_Some; exact Hc).
  assert (i < length (directions st.2))%nat by (eapply lookup_lt_Some; exact Hd).
  assert (i < length st.1)%nat by (eapply lookup_lt_Some; exact Hr).
  unfold update_pure. rewrite Hc, Hd, Hr.
  destruct (classify st.2 collisions i q c d); simpl;
    rewrite ?list_lookup_insert_eq by assumption;
    rewrite ?Hp, ?Hc, ?Hd, ?Hr; reflexivity.
Qed.

Lemma update_pure_counters collisions i q st :
  total_collisions (update_pure collisions i q st).2
    = total_collisions st.2
      + (if decide (event_in collisions st i q = Collided) then 1 else 0) /\
  total_deliveries (update_pure collisions i q st).2
    = total_deliveries st.2
      + (if decide (event_in collisions st i q = Delivered) then 1 else 0).
Proof.
  unfold update_pure, event_in.
  destruct (carrying st.2 !! i), (directions st.2 !! i), (st.1 !! i);
    try (simpl; split; lia).
  destruct (classify st.2 collisions i q z z0); simpl; split; lia.
Qed.

Lemma update_all_setting collisions cands :
  forall i st,
    same_setting st.2 (update_all collisions i cands st).2 /\
    same_sizes st (update_all collisions i cands st).
Proof.
  induction cands as [|q cands IH]; intros i st; simpl.
  - split; [apply same_setting_refl | apply same_sizes_refl].
  - destruct (update_pure_setting collisions i q st) as [Hs1 Hz1].
    destruct (IH (S i) (update_pure collisions i q st)) as [Hs2 Hz2].
    split; [eapply same_setting_trans | eapply same_sizes_trans]; eassumption.
Qed.

(** Agents before the start of the loop are not touched. *)
Lemma update_all_row_lt collisions cands :
  forall i st j, (j < i)%nat -> row (update_all collisions i cands st) j = row st j.
Proof.
  induction cands as [|q cands IH]; intros i st j Hj; simpl.
  - reflexivity.
  - rewrite IH by lia. apply update_pure_row_ne. lia.
Qed.

(** Agent [i + k] ends with the outcome of its own iteration. *)
Lemma update_all_row collisions cands :
  forall i st k q p c d r,
    cands !! k = Some q ->
    row st (i + k) = (Some p, Some c, Some d, Some r) ->
    row (update_all collisions i cands st) (i + k)
    = (let '(p', c', d', r') :=
         outcome st.2 (classify st.2 collisions (i + k) q c d) p q c d r in
       (Some p', Some c', Some d', Some r')).
Proof.
  induction cands as [|a cands IH]; intros i st k q p c d r Hk Hrow.
  - rewrite lookup_nil in Hk. discriminate Hk.
  - destruct k as [|k]; simpl in Hk.
    + injection Hk as ->. rewrite Nat.add_0_r in *. simpl.
      rewrite update_all_row_lt by lia.
      apply update_pure_row_eq. exact Hrow.
    + simpl. replace (i + S k)%nat with (S i + k)%nat in * by lia.
      destruct (update_pure_setting collisions i a st) as [Hs _].
      rewrite (IH (S i) (update_pure collisions i a st) k q p c d r Hk).
      * rewrite (classify_setting _ _ _ _ _ _ _ Hs), (outcome_setting _ _ _ _ _ _ _ _ Hs).
        reflexivity.
      * rewrite update_pure_row_ne by lia. exact Hrow.
Qed.

Lemma event_in_ext collisions st st' j q :
  same_setting st.2 st'.2 -> row st' j = row st j ->
  event_in collisions st' j q = event_in collisions st j q.
Proof.
  intros Hs Hrow. unfold row in Hrow. injection Hrow as _ Hc Hd Hr.
  unfold event_in. rewrite Hc, Hd, Hr.
  destruct (carrying st.2 !! j), (directions st.2 !! j), (st.1 !! j); try reflexivity.
  apply classify_setting, Hs.
Qed.

Lemma count_in_ext ev collisions cands :
  forall i st st',
    same_setting st.2 st'.2 ->
    (forall j, (i <= j)%nat -> row st' j = row st j) ->
    count_in ev collisions i cands st' = count_in ev collisions i cands st.
Proof.
  induction cands as [|q cands IH]; intros i st st' Hs Hrows; simpl.
  - reflexivity.
  - rewrite (event_in_ext collisions st st' i q Hs) by (apply Hrows; lia).
    rewrite (IH (S i) st st' Hs) by (intros j Hj; apply Hrows; lia).
    reflexivity.
Qed.

Lemma update_all_counters collisions cands :
  forall i st,
    total_collisions (update_all collisions i cands st).2
      = total_collisions st.2 + count_in Collided collisions i cands st /\
    total_deliveries (update_all collisions i cands st).2
      = total_deliveries st.2 + count_in Delivered collisions i cands st.
Proof.
  induction cands as [|q cands IH]; intros i st; simpl.
  - split; lia.
  - destruct (IH (S i) (update_pure collisions i q st)) as [Hc Hd].
    destruct (update_pure_counters collisions i q st) as [Hc1 Hd1].
    destruct (update_pure_setting collisions i q st) as [Hs _].
    rewrite Hc, Hd, Hc1, Hd1.
    rewrite !(count_in_ext _ collisions cands (S i) st (update_pure collisions i q st) Hs)
      by (intros j Hj; apply update_pure_row_ne; lia).
    split; lia.
Qed.

(** The update loop computes [update_all] when every agent it visits has
    its four entries. *)
Lemma update_loop collisions cands :
  forall i rewards e,
    (i + length cands <= length (agent_positions e))%nat ->
    (i + length cands <= length (carrying e))%nat ->
    (i + length cands <= length (directions e))%nat ->
    (i + length cands <= length rewards)%nat ->
    for_enum (update_agent collisions) i cands rewards e
    = (Ok (update_all collisions i cands (rewards, e)).1,
       (update_all collisions i cands (rewards, e)).2).
Proof.
  induction cands as [|q cands IH]; intros i rewards e Hp Hc Hd Hr; simpl in *.
  - reflexivity.
  - destruct (lookup_lt_is_Some_2 (agent_positions e) i) as [p Hpi]; [lia|].
    destruct (lookup_lt_is_Some_2 (carrying e) i) as [c Hci]; [lia|].
    destruct (lookup_lt_is_Some_2 (directions e) i) as [d Hdi]; [lia|].
    destruct (lookup_lt_is_Some_2 rewards i) as [r Hri]; [lia|].
    erewrite bind_ok by (eapply update_agent_spec; eassumption).
    destruct (update_pure_setting collisions i q (rewards, e)) as [_ Hz].
    destruct Hz as (Hz1 & Hz2 & Hz3 & Hz4). simpl in Hz1, Hz2, Hz3, Hz4.
    rewrite IH by lia.
    destruct (update_pure collisions i q (rewards, e)). reflexivity.
Qed.
End UpdateAll.

(** ** The environment: one tick *)

Section StepFacts.
Import Grid.

Lemma step_wrong_length (e : GridWorldEnv) (actions : list Z) :
  Z.of_nat (length actions) <> num_agents e ->
  step actions e = (Err AssertionError, e).
Proof.
  intros Hlen. unfold step. rewrite bind_get.
  rewrite bool_decide_false by exact Hlen. reflexivity.
Qed.

Lemma observations_loop (self e : GridWorldEnv) (l : list nat) :
  (forall i, i ∈ l -> (i < length (agent_positions self))%nat /\
                      (i < length (carrying self))%nat /\
                      (i < length (directions self))%nat) ->
  forall acc, exists observations,
    for_each (fun agent_idx observations =>
        let! p := getitem (agent_positions self) agent_idx in
        let! c := getitem (carrying self) agent_idx in
        let! d := getitem (directions self) agent_idx in
        ret (observations ++
               [mkObs p (location_A self) (location_B self) c d]))
      l acc e = (Ok observations, e).
Proof.
  induction l as [|i l IH]; intros Hrange acc; simpl.
  - exists acc. reflexivity.
  - destruct (Hrange i) as (Hp & Hc & Hd); [left|].
    destruct (lookup_lt_is_Some_2 _ _ Hp) as [p Hpi].
    destruct (lookup_lt_is_Some_2 _ _ Hc) as [c Hci].
    destruct (lookup_lt_is_Some_2 _ _ Hd) as [d Hdi].
    rewrite bind_assoc. erewrite bind_ok by (apply getitem_ok; exact Hpi).
    rewrite bind_assoc. erewrite bind_ok by (apply getitem_ok; exact Hci).
    rewrite bind_assoc. erewrite bind_ok by (apply getitem_ok; exact Hdi).
    rewrite bind_ret.
    apply IH. intros j Hj. apply Hrange. right. exact Hj.
Qed.

Lemma get_observations_ok (e : GridWorldEnv) :
  well_formed e -> exists observations, _get_observations e = (Ok observations, e).
Proof.
  intros (Hp & Hc & Hd). unfold _get_observations. rewrite bind_get.
  apply observations_loop. intros i Hi.
  apply elem_of_seq in Hi. lia.
Qed.

(** The marking does not depend on the step counter. *)
Lemma detect_after_count (e : GridWorldEnv) (actions : list Z) v :
  well_formed e ->
  _detect_collisions (candidates e actions) (set_steps v e)
  = (Ok (collided e actions), set_steps v e) /\
  forall i, i ∈ collided e actions <-> head_on e (candidates e actions) i.
Proof.
  intros (Hp & Hc & Hd).
  assert (length (candidates e actions) <= length (directions e))%nat as Hcands.
  { unfold candidates. rewrite length_zip_with. lia. }
  destruct (detect_collisions_spec e _ Hcands) as (c & Hrun & Hspec).
  destruct (detect_collisions_spec (set_steps v e) (candidates e actions) Hcands)
    as (c' & Hrun' & Hspec').
  assert (collided e actions = c) as Hcol.
  { unfold collided. rewrite Hrun. reflexivity. }
  rewrite Hcol. split; [|exact Hspec].
  rewrite Hrun'. f_equal. f_equal.
  apply set_eq. intros i. rewrite Hspec, Hspec'. reflexivity.
Qed.

(** On a well-formed environment and a vector of the right length, [step]
    returns, and its result is the update loop run on the candidate
    positions and the marking. *)
Lemma step_spec (e : GridWorldEnv) (actions : list Z) :
  well_formed e -> Z.of_nat (length actions) = num_agents e ->
  let st := update_all (collided e actions) 0 (candidates e actions)
              (replicate (length actions) 0%Q, set_steps (steps e + 1) e) in
  let e' := set_total_reward (total_reward st.2 + py_sum st.1)%Q st.2 in
  exists observations,
    step actions e
    = (Ok (observations, st.1, false,
           mkInfo (steps e') (total_reward e') (total_collisions e')
                  (total_deliveries e')), e').
Proof.
  intros Hwf Hlen st e'.
  pose proof Hwf as (Hp & Hc & Hd).
  assert (Z.to_nat (num_agents e) = length actions) as Hn by lia.
  assert (length (candidates e actions) = length actions) as Hcands.
  { unfold candidates. rewrite length_zip_with. lia. }
  destruct (update_all_setting (collided e actions) (candidates e actions) 0
              (replicate (length actions) 0%Q, set_steps (steps e + 1) e))
    as [Hset Hsize].
  fold st in Hset, Hsize.
  destruct Hset as (Hs1 & Hs2 & Hs3 & Hs4 & Hs5 & Hs6 & Hs7 & Hs8).
  destruct Hsize as (Hz1 & Hz2 & Hz3 & Hz4).
  cbn [fst snd set_steps agent_positions carrying directions num_agents]
    in Hs2, Hz1, Hz2, Hz3.
  destruct (get_observations_ok e') as [observations Hobs].
  { unfold well_formed, e'. cbn [set_total_reward agent_positions carrying directions num_agents].
    rewrite Hs2, Hz1, Hz2, Hz3. exact Hwf. }
  exists observations.
  unfold step. rewrite bind_get.
  rewrite bool_decide_true by exact Hlen.
  cbn [py_assert]. rewrite bind_ret, bind_modify.
  assert (for_enum project_move 0 actions [] (set_steps (steps e + 1) e)
          = (Ok (candidates e actions), set_steps (steps e + 1) e)) as Hproj.
  { rewrite project_loop by (cbn [set_steps agent_positions]; lia). reflexivity. }
  erewrite bind_ok by exact Hproj.
  rewrite bind_get.
  erewrite bind_ok.
  2:{ apply (proj1 (detect_after_count e actions (steps e + 1) Hwf)). }
  cbn [set_steps num_agents]. rewrite Hn.
  erewrite bind_ok.
  2:{ apply update_loop; cbn [set_steps agent_positions carrying directions];
      rewrite ?length_replicate, Hcands; lia. }
  fold st. rewrite bind_modify. fold e'.
  erewrite bind_ok by exact Hobs.
  rewrite bind_get. reflexivity.
Qed.
End StepFacts.

(** ** The environment: what a tick does to each agent *)

Section TickFacts.
Import Grid.

Lemma event_in_start (e : GridWorldEnv) (actions : list Z) (i : nat) q v :
  candidates e actions !! i = Some q ->
  event_in (collided e actions) (replicate (length actions) 0%Q, set_steps v e) i q
  = event_of e actions i.
Proof.
  intros Hq. unfold event_in, event_of. rewrite Hq.
  cbn [fst snd set_steps carrying directions].
  assert (i < length actions)%nat as Hi.
  { apply lookup_lt_Some in Hq. unfold candidates in Hq.
    rewrite length_zip_with in Hq. lia. }
  rewrite (lookup_replicate_2 _ _ _ Hi).
  destruct (carrying e !! i), (directions e !! i); reflexivity.
Qed.

Lemma count_in_start ev (e : GridWorldEnv) (actions : list Z) v (l : list pos) :
  forall i, drop i (candidates e actions) = l ->
    count_in ev (collided e actions) i l
      (replicate (length actions) 0%Q, set_steps v e)
    = count_events ev e actions i (length l).
Proof.
  induction l as [|q l IH]; intros i Hdrop; simpl.
  - reflexivity.
  - assert (candidates e actions !! i = Some q) as Hq.
    { rewrite <- (Nat.add_0_r i), <- lookup_drop, Hdrop. reflexivity. }
    rewrite (event_in_start e actions i q v Hq).
    rewrite (IH (S i)); [reflexivity|].
    replace (S i) with (i + 1)%nat by lia.
    rewrite <- drop_drop, Hdrop. reflexivity.
Qed.

(** A tick, agent by agent: the entries of every agent after the tick are
    the outcome of the branch it takes, starting from a reward of 0. *)
Lemma step_agentwise (e : GridWorldEnv) (actions : list Z) :
  well_formed e -> Z.of_nat (length actions) = num_agents e ->
  exists observations rewards inf e',
    step actions e = (Ok (observations, rewards, false, inf), e') /\
    same_sizes (replicate (length actions) 0%Q, e) (rewards, e') /\
    (same_config e e' /\ steps e' = steps e + 1) /\
    total_collisions e'
      = total_collisions e + count_events Collided e actions 0 (length actions) /\
    total_deliveries e'
      = total_deliveries e + count_events Delivered e actions 0 (length actions) /\
    total_reward e' = (total_reward e + py_sum rewards)%Q /\
    forall i p q c d,
      agent_positions e !! i = Some p ->
      candidates e actions !! i = Some q ->
      carrying e !! i = Some c ->
      directions e !! i = Some d ->
      row (rewards, e') i
      = (let '(p', c', d', r') :=
           outcome e (classify e (collided e actions) i q c d) p q c d 0%Q in
         (Some p', Some c', Some d', Some r')).
Proof.
  intros Hwf Hlen.
  destruct (step_spec e actions Hwf Hlen) as [observations Hrun].
  assert (length (candidates e actions) = length actions) as Hcands.
  { destruct Hwf as (Hp & _). unfold candidates. rewrite length_zip_with. lia. }
  destruct (update_all_counters (collided e actions) (candidates e actions) 0
              (replicate (length actions) 0%Q, set_steps (steps e + 1) e))
    as [Hcol Hdel].
  rewrite (count_in_start Collided e actions (steps e + 1)
             (candidates e actions) 0 eq_refl), Hcands in Hcol.
  rewrite (count_in_start Delivered e actions (steps e + 1)
             (candidates e actions) 0 eq_refl), Hcands in Hdel.
  set (st0 := (replicate (length actions) 0%Q, set_steps (steps e + 1) e)) in *.
  set (st := update_all (collided e actions) 0 (candidates e actions) st0) in *.
  destruct (update_all_setting (collided e actions) (candidates e actions) 0 st0)
    as [Hset Hsize].
  fold st in Hset, Hsize.
  destruct Hset as (Hs1 & Hs2 & Hs3 & Hs4 & Hs5 & Hs6 & Hs7 & Htr).
  eexists observations, _, _, _. split; [exact Hrun|].
  split; [exact Hsize|].
  split; [split; [repeat split; assumption | exact Hs7]|].
  split; [exact Hcol|]. split; [exact Hdel|].
  split; [cbn [set_total_reward total_reward]; rewrite Htr; reflexivity|].
  intros i p q c d Hp Hq Hc Hd.
  assert (i < length actions)%nat as Hi.
  { apply lookup_lt_Some in Hq. lia. }
  apply (update_all_row (collided e actions) (candidates e actions) 0 st0 i q p c d 0%Q Hq).
  unfold row, st0. cbn [fst snd set_steps agent_positions carrying directions Nat.add].
  rewrite Hp, Hc, Hd, (lookup_replicate_2 _ _ _ Hi). reflexivity.
Qed.

(** C2. [_detect_collisions] returns exactly the agents of head-on groups:
    agent [i] is marked iff its candidate cell is neither site and is also
    the candidate cell of an outbound agent and of a returning agent. So a
    group on SiteA or SiteB is never marked, a group of one is never
    marked, a group whose members share a leg is never marked whatever its
    size, and every member of a group elsewhere holding both legs is
    marked. *)
Theorem collision_marking (e : GridWorldEnv) (next_positions : list pos) :
  (length next_positions <= length (directions e))%nat ->
  exists collisions,
    _detect_collisions next_positions e = (Ok collisions, e) /\
    (forall i, i ∈ collisions <-> head_on e next_positions i) /\
    (forall i p, next_positions !! i = Some p ->
       p = location_A e \/ p = location_B e -> i ∉ collisions) /\
    (forall i p, next_positions !! i = Some p ->
       (forall j, next_positions !! j = Some p -> j = i) -> i ∉ collisions) /\
    (forall i p, next_positions !! i = Some p ->
       (forall j k dj dk,
          next_positions !! j = Some p -> next_positions !! k = Some p ->
          directions e !! j = Some dj -> directions e !! k = Some dk ->
          leg_of dj = leg_of dk) ->
       i ∉ collisions) /\
    (forall i j k p dj dk,
       next_positions !! i = Some p ->
       p <> location_A e -> p <> location_B e ->
       next_positions !! j = Some p -> directions e !! j = Some dj ->
       leg_of dj = OutboundAtoB ->
       next_positions !! k = Some p -> directions e !! k = Some dk ->
       leg_of dk = ReturnBtoA ->
       i ∈ collisions).
Proof.
  intros Hlen.
  destruct (detect_collisions_spec e next_positions Hlen) as (collisions & Hrun & Hspec).
  exists collisions. split; [exact Hrun|]. split; [exact Hspec|].
  split; [|split; [|split]].
  - intros i p Hi Hsite Hin. apply Hspec in Hin.
    destruct Hin as (p' & Hi' & HA & HB & _).
    assert (p' = p) as -> by congruence. tauto.
  - intros i p Hi Halone Hin. apply Hspec in Hin.
    destruct Hin as (p' & Hi' & _ & _ & (j & Hj & Hdj) & (k & dk & Hk & Hdk & Hne)).
    assert (p' = p) as -> by congruence.
    apply Halone in Hj, Hk. subst j k. congruence.
  - intros i p Hi Hsame Hin. apply Hspec in Hin.
    destruct Hin as (p' & Hi' & _ & _ & (j & Hj & Hdj) & (k & dk & Hk & Hdk & Hne)).
    assert (p' = p) as -> by congruence.
    specialize (Hsame j k 0 dk Hj Hk Hdj Hdk).
    unfold leg_of in Hsame. rewrite decide_True in Hsame by reflexivity.
    rewrite decide_False in Hsame by exact Hne. discriminate Hsame.
  - intros i j k p dj dk Hi HA HB Hj Hdj Hlj Hk Hdk Hlk.
    apply Hspec. exists p. split; [exact Hi|]. split; [exact HA|]. split; [exact HB|].
    unfold leg_of in Hlj, Hlk. split.
    + exists j. split; [exact Hj|].
      destruct (decide (dj = 0)) as [->|]; [exact Hdj | discriminate Hlj].
    + exists k, dk. split; [exact Hk|]. split; [exact Hdk|].
      destruct (decide (dk = 0)); [discriminate Hlk | assumption].
Qed.

Lemma collision_marking_witness :
  exists collisions,
    _detect_collisions [(1, 2); (1, 2); (0, 0)]
      (mkEnv 5 3 COLLISION_PENALTY DELIVERY_REWARD (0, 0) (4, 4)
             [(1, 1); (1, 3); (0, 1)] [1; 0; 0] [0; 1; 1] 0 0 0 0)
    = (Ok collisions,
       mkEnv 5 3 COLLISION_PENALTY DELIVERY_REWARD (0, 0) (4, 4)
             [(1, 1); (1, 3); (0, 1)] [1; 0; 0] [0; 1; 1] 0 0 0 0) /\
    (0%nat ∈ collisions /\ 1%nat ∈ collisions /\ 2%nat ∉ collisions).
Proof.
  destruct (collision_marking
              (mkEnv 5 3 COLLISION_PENALTY DELIVERY_REWARD (0, 0) (4, 4)
                     [(1, 1); (1, 3); (0, 1)] [1; 0; 0] [0; 1; 1] 0 0 0 0)
              [(1, 2); (1, 2); (0, 0)])
    as (collisions & Hrun & _ & Hsite & _ & _ & Hboth).
  - simpl. lia.
  - exists collisions. split; [exact Hrun|]. split; [|split].
    + apply (Hboth 0%nat 0%nat 1%nat (1, 2) 0 1); try reflexivity; discriminate.
    + apply (Hboth 1%nat 0%nat 1%nat (1, 2) 0 1); try reflexivity; discriminate.
    + apply (Hsite 2%nat (0, 0)); [reflexivity | left; reflexivity].
Defined.

(** C3. In a tick, an agent marked collided keeps its position and its
    reward for the tick equals the collision penalty; an agent not marked
    moves to its candidate position. In particular two agents on opposite
    legs whose candidate is the same cell, not a site, are both marked,
    both stay where they were and both get the penalty. *)
Theorem collided_stay_others_move (e : GridWorldEnv) (actions : list Z) :
  well_formed e -> Z.of_nat (length actions) = num_agents e ->
  exists observations rewards inf e',
    step actions e = (Ok (observations, rewards, false, inf), e') /\
    (forall i p q,
       agent_positions e !! i = Some p ->
       candidates e actions !! i = Some q ->
       (i ∈ collided e actions ->
          agent_positions e' !! i = Some p /\
          exists r, rewards !! i = Some r /\ (r == collision_penalty e)%Q) /\
       (i ∉ collided e actions -> agent_positions e' !! i = Some q)) /\
    (forall i j cell pi pj,
       candidates e actions !! i = Some cell ->
       candidates e actions !! j = Some cell ->
       cell <> location_A e -> cell <> location_B e ->
       directions e !! i = Some 0 -> directions e !! j = Some 1 ->
       agent_positions e !! i = Some pi -> agent_positions e !! j = Some pj ->
       i ∈ collided e actions /\ j ∈ collided e actions /\
       agent_positions e' !! i = Some pi /\ agent_positions e' !! j = Some pj /\
       (exists ri rj, rewards !! i = Some ri /\ rewards !! j = Some rj /\
          (ri == collision_penalty e)%Q /\ (rj == collision_penalty e)%Q)).
Proof.
  intros Hwf Hlen.
  destruct (step_agentwise e actions Hwf Hlen)
    as (observations & rewards & inf & e' & Hrun & _ & _ & _ & _ & _ & Hrows).
  exists observations, rewards, inf, e'. split; [exact Hrun|].
  assert (forall i p q,
       agent_positions e !! i = Some p ->
       candidates e actions !! i = Some q ->
       (i ∈ collided e actions ->
          agent_positions e' !! i = Some p /\
          exists r, rewards !! i = Some r /\ (r == collision_penalty e)%Q) /\
       (i ∉ collided e actions -> agent_positions e' !! i = Some q)) as Hgen.
  { intros i p q Hp Hq.
    assert (i < length actions)%nat as Hi.
    { apply lookup_lt_Some in Hq. unfold candidates in Hq.
      rewrite length_zip_with in Hq. lia. }
    destruct Hwf as (_ & Hlc & Hld).
    destruct (lookup_lt_is_Some_2 (carrying e) i) as [c Hc]; [lia|].
    destruct (lookup_lt_is_Some_2 (directions e) i) as [d Hd]; [lia|].
    specialize (Hrows i p q c d Hp Hq Hc Hd).
    unfold classify in Hrows. split; intros Hin.
    - rewrite decide_True in Hrows by exact Hin. simpl in Hrows.
      unfold row in Hrows. injection Hrows as Hp' _ _ Hr'.
      split; [exact Hp'|]. eexists. split; [exact Hr'|]. apply Qplus_0_l.
    - rewrite decide_False in Hrows by exact Hin.
      unfold row in Hrows. repeat case_decide; simpl in Hrows;
        injection Hrows as Hp' _ _ _; exact Hp'. }
  split; [exact Hgen|].
  intros i j cell p_i p_j Hci Hcj HA HB Hdi Hdj Hpi Hpj.
  destruct (detect_after_count e actions 0 Hwf) as [_ Hmark].
  assert (forall k, candidates e actions !! k = Some cell -> k ∈ collided e actions)
    as Hboth.
  { intros k Hk. apply Hmark. exists cell.
    split; [exact Hk|]. split; [exact HA|]. split; [exact HB|]. split.
    - exists i. auto.
    - exists j, 1. split; [exact Hcj|]. split; [exact Hdj | discriminate]. }
  destruct (Hgen i p_i cell Hpi Hci) as [Hi _].
  destruct (Hgen j p_j cell Hpj Hcj) as [Hj _].
  destruct (Hi (Hboth i Hci)) as (Hpi' & ri & Hri & Hqi).
  destruct (Hj (Hboth j Hcj)) as (Hpj' & rj & Hrj & Hqj).
  split; [apply Hboth, Hci|]. split; [apply Hboth, Hcj|].
  split; [exact Hpi'|]. split; [exact Hpj'|].
  exists ri, rj. auto.
Qed.

(** C4. In a tick, for an agent not marked collided: if its candidate
    position is SiteA and its direction flag is 1 (return leg), it ends
    carrying with flag 0 and a reward of 0; else if its candidate is SiteB,
    its flag is 0 (outbound leg) and it carries, it ends not carrying with
    flag 1 and the delivery reward; otherwise its carrying flag and its
    direction flag are unchanged. The delivery counter grows by the number
    of agents that take the delivery branch, one each, and no agent meets
    the conditions of both branches. *)
Theorem pickup_and_delivery (e : GridWorldEnv) (actions : list Z) :
  well_formed e -> Z.of_nat (length actions) = num_agents e ->
  exists observations rewards inf e',
    step actions e = (Ok (observations, rewards, false, inf), e') /\
    total_deliveries e'
      = total_deliveries e + count_events Delivered e actions 0 (length actions) /\
    forall i q c d,
      candidates e actions !! i = Some q ->
      carrying e !! i = Some c ->
      directions e !! i = Some d ->
      i ∉ collided e actions ->
      (q = location_A e /\ d = 1 ->
         event_of e actions i = PickedUp /\
         carrying e' !! i = Some 1 /\ directions e' !! i = Some 0 /\
         rewards !! i = Some 0%Q) /\
      (~ (q = location_A e /\ d = 1) ->
       q = location_B e /\ d = 0 /\ c = 1 ->
         event_of e actions i = Delivered /\
         carrying e' !! i = Some 0 /\ directions e' !! i = Some 1 /\
         exists r, rewards !! i = Some r /\ (r == delivery_reward e)%Q) /\
      (~ (q = location_A e /\ d = 1) ->
       ~ (q = location_B e /\ d = 0 /\ c = 1) ->
         event_of e actions i = Moved /\
         carrying e' !! i = Some c /\ directions e' !! i = Some d /\
         rewards !! i = Some 0%Q) /\
      ~ ((q = location_A e /\ d = 1) /\ (q = location_B e /\ d = 0 /\ c = 1)).
Proof.
  intros Hwf Hlen.
  destruct (step_agentwise e actions Hwf Hlen)
    as (observations & rewards & inf & e' & Hrun & _ & _ & _ & Hdel & _ & Hrows).
  exists observations, rewards, inf, e'. split; [exact Hrun|]. split; [exact Hdel|].
  intros i q c d Hq Hc Hd Hin.
  assert (i < length actions)%nat as Hi.
  { apply lookup_lt_Some in Hq. unfold candidates in Hq.
    rewrite length_zip_with in Hq. lia. }
  destruct Hwf as (Hlp & _ & _).
  destruct (lookup_lt_is_Some_2 (agent_positions e) i) as [p Hp]; [lia|].
  specialize (Hrows i p q c d Hp Hq Hc Hd).
  assert (event_of e actions i = classify e (collided e actions) i q c d) as Hev.
  { unfold event_of. rewrite Hq, Hc, Hd. reflexivity. }
  rewrite Hev. unfold classify in *. rewrite decide_False in * by exact Hin.
  unfold row in Hrows.
  split; [|split; [|split]].
  - intros Hpick. rewrite decide_True in * by exact Hpick. simpl in Hrows.
    injection Hrows as _ Hc' Hd' Hr'. auto.
  - intros Hnpick Hdeliver.
    rewrite (decide_False (P := q = location_A e /\ d = 1)) in * by exact Hnpick.
    rewrite decide_True in * by exact Hdeliver. simpl in Hrows.
    injection Hrows as _ Hc' Hd' Hr'.
    split; [reflexivity|]. split; [exact Hc'|]. split; [exact Hd'|].
    eexists. split; [exact Hr'|]. apply Qplus_0_l.
  - intros Hnpick Hndeliver.
    rewrite (decide_False (P := q = location_A e /\ d = 1)) in * by exact Hnpick.
    rewrite decide_False in * by exact Hndeliver. simpl in Hrows.
    injection Hrows as _ Hc' Hd' Hr'. auto.
  - intros [[_ Hd1] (_ & Hd0 & _)]. congruence.
Qed.

(** C5 (as the code has it). [step] does not look at the action codes: on
    a well-formed environment every vector of the right length is
    accepted, and a code outside the four of [Action] moves nothing, the
    candidate position of its agent being the position it has. *)
Theorem step_accepts_any_action_code (e : GridWorldEnv) (actions : list Z) :
  well_formed e -> Z.of_nat (length actions) = num_agents e ->
  is_ok (fst (step actions e)) = true /\
  forall i p a,
    agent_positions e !! i = Some p -> actions !! i = Some a ->
    ~ valid_action a ->
    candidates e actions !! i = Some p.
Proof.
  intros Hwf Hlen. split.
  - destruct (step_spec e actions Hwf Hlen) as [observations Hrun].
    rewrite Hrun. reflexivity.
  - intros i p a Hp Ha Hbad.
    unfold candidates. apply lookup_zip_with_Some. exists p, a.
    split; [|auto].
    unfold valid_action in Hbad. unfold _get_next_position.
    destruct p as [r c].
    repeat (rewrite decide_False by (intros [Heq _]; apply Hbad; auto)).
    reflexivity.
Qed.

(** C7. [step] called with a number of actions different from the number
    of agents raises the assertion error before it writes anything: the
    environment after the call is the environment before it, positions,
    carrying flags, legs, sites and the four counters included. *)
Theorem step_wrong_length_keeps_state (e : GridWorldEnv) (actions : list Z) :
  Z.of_nat (length actions) <> num_agents e ->
  step actions e = (Err AssertionError, e).
Proof.
  intros Hlen. unfold step.
  (* [self] is read, the assertion is evaluated and fails; [steps += 1] and
     everything after it is never reached *)
  rewrite bind_get.
  assert (bool_decide (Z.of_nat (length actions) = num_agents e) = false) as ->
    by (apply bool_decide_eq_false; exact Hlen).
  cbn [py_assert]. apply bind_err. reflexivity.
Qed.
End TickFacts.

(** ** The environment: what can be reached from [reset] *)

Section ReachableFacts.
Import Grid.

Lemma py_sum_zeros (n : nat) : py_sum (replicate n 0%Q) = 0%Q.
Proof.
  unfold py_sum. induction n as [|n IH]; simpl.
  - reflexivity.
  - change (0 + 0)%Q with 0%Q. exact IH.
Qed.

Lemma reset_state (e : GridWorldEnv) (site_A site_B : pos) :
  snd (reset site_A site_B e)
  = mkEnv (grid_size e) (num_agents e) (collision_penalty e) (delivery_reward e)
          site_A site_B
          (replicate (Z.to_nat (num_agents e)) site_A)
          (replicate (Z.to_nat (num_agents e)) 0)
          (replicate (Z.to_nat (num_agents e)) 0)
          0 0%Q 0 0.
Proof.
  unfold reset. rewrite bind_modify.
  match goal with
  | |- snd (_get_observations ?s) = _ =>
      destruct (get_observations_ok s) as [observations Hobs]
  end.
  - unfold well_formed. simpl. rewrite !length_replicate. auto.
  - rewrite Hobs. reflexivity.
Qed.

Lemma reset_quiet (e : GridWorldEnv) (site_A site_B : pos) :
  quiet (snd (reset site_A site_B e)).
Proof.
  rewrite reset_state. unfold quiet, well_formed. simpl.
  rewrite !length_replicate. repeat split.
Qed.

Lemma quiet_marks_nobody (e : GridWorldEnv) (actions : list Z) :
  quiet e -> collided e actions = ∅.
Proof.
  intros (Hwf & _ & Hd & _).
  apply elem_of_equiv_empty_L. intros i Hin.
  apply (proj2 (detect_after_count e actions 0 Hwf)) in Hin.
  destruct Hin as (p & _ & _ & _ & _ & (k & dk & _ & Hdk & Hne)).
  rewrite Hd in Hdk. apply lookup_replicate in Hdk as [-> _].
  apply Hne. reflexivity.
Qed.

Lemma quiet_events (e : GridWorldEnv) (actions : list Z) (i : nat) :
  quiet e -> event_of e actions i = Moved.
Proof.
  intros Hq. pose proof (quiet_marks_nobody e actions Hq) as Hnone.
  destruct Hq as (_ & Hc & Hd & _).
  unfold event_of.
  destruct (candidates e actions !! i) as [q|]; [|reflexivity].
  destruct (carrying e !! i) as [c|] eqn:Hci; [|reflexivity].
  destruct (directions e !! i) as [d|] eqn:Hdi; [|reflexivity].
  rewrite Hc in Hci. apply lookup_replicate in Hci as [-> _].
  rewrite Hd in Hdi. apply lookup_replicate in Hdi as [-> _].
  unfold classify. rewrite Hnone.
  rewrite decide_False by apply not_elem_of_empty.
  rewrite decide_False by (intros [_ H]; discriminate H).
  rewrite decide_False by (intros (_ & _ & H); discriminate H).
  reflexivity.
Qed.

Lemma quiet_counts ev (e : GridWorldEnv) (actions : list Z) (n : nat) :
  quiet e -> ev <> Moved -> forall i, count_events ev e actions i n = 0.
Proof.
  intros Hq Hev. induction n as [|n IH]; intros i; simpl.
  - reflexivity.
  - rewrite (quiet_events e actions i Hq), IH.
    rewrite decide_False by (intros H; apply Hev; symmetry; exact H).
    reflexivity.
Qed.

(** A tick on a quiet environment pays nothing and leaves it quiet. *)
Lemma quiet_step (e : GridWorldEnv) (actions : list Z) :
  quiet e -> Z.of_nat (length actions) = num_agents e ->
  exists observations inf e',
    step actions e
    = (Ok (observations, replicate (length actions) 0%Q, false, inf), e') /\
    quiet e'.
Proof.
  intros Hq Hlen. pose proof Hq as (Hwf & Hc & Hd & Htr & Htc & Htd).
  pose proof Hwf as (Hlp & Hlc & Hld).
  assert (Z.to_nat (num_agents e) = length actions) as Hn by lia.
  destruct (step_agentwise e actions Hwf Hlen)
    as (observations & rewards & inf & e' & Hrun & Hsize & [Hcfg _] & Hcol & Hdel
        & Hrew & Hrows).
  destruct Hsize as (Hz1 & Hz2 & Hz3 & Hz4). cbn [fst snd] in Hz1, Hz2, Hz3, Hz4.
  rewrite length_replicate in Hz4.
  destruct Hcfg as (_ & Hnum & _).
  assert (forall i, (i < length actions)%nat ->
            carrying e' !! i = Some 0 /\ directions e' !! i = Some 0 /\
            rewards !! i = Some 0%Q) as Hafter.
  { intros i Hi.
    destruct (lookup_lt_is_Some_2 (agent_positions e) i) as [p Hp]; [lia|].
    destruct (lookup_lt_is_Some_2 (candidates e actions) i) as [q Hcand].
    { unfold candidates. rewrite length_zip_with. lia. }
    assert (carrying e !! i = Some 0) as Hci.
    { rewrite Hc. apply lookup_replicate_2. lia. }
    assert (directions e !! i = Some 0) as Hdi.
    { rewrite Hd. apply lookup_replicate_2. lia. }
    specialize (Hrows i p q 0 0 Hp Hcand Hci Hdi).
    pose proof (quiet_events e actions i Hq) as Hev.
    unfold event_of in Hev. rewrite Hcand, Hci, Hdi in Hev.
    rewrite Hev in Hrows. simpl in Hrows. unfold row in Hrows.
    injection Hrows as _ Hc' Hd' Hr'. auto. }
  assert (forall (A : Type) (l : list A) (x : A),
            length l = length actions ->
            (forall i, (i < length actions)%nat -> l !! i = Some x) ->
            l = replicate (length actions) x) as Hfill.
  { intros A l x Hl Hall. apply list_eq. intros i.
    destruct (decide (i < length actions)%nat) as [Hi|Hi].
    - rewrite (Hall i Hi). symmetry. apply lookup_replicate_2, Hi.
    - rewrite (lookup_ge_None_2 l) by lia.
      symmetry. apply lookup_replicate_None. lia. }
  assert (rewards = replicate (length actions) 0%Q) as Hrewards.
  { apply Hfill; [exact Hz4|]. intros i Hi. apply (Hafter i Hi). }
  subst rewards.
  exists observations, inf, e'. split; [exact Hrun|].
  unfold quiet, well_formed. rewrite Hnum, Hn.
  split; [repeat split; lia|].
  split; [apply Hfill; [lia | intros i Hi; apply (Hafter i Hi)]|].
  split; [apply Hfill; [lia | intros i Hi; apply (Hafter i Hi)]|].
  split; [rewrite Hrew, Htr, py_sum_zeros; reflexivity|].
  rewrite Hcol, Hdel, !(quiet_counts _ e actions _ Hq) by discriminate.
  split; lia.
Qed.

Lemma reachable_quiet (e : GridWorldEnv) : reachable e -> quiet e.
Proof.
  induction 1 as [size n penalty reward site_A site_B _ _ _
                 | e site_A site_B _ _ _ _ _
                 | e actions _ IH].
  - unfold __init__. apply reset_quiet.
  - apply reset_quiet.
  - destruct (decide (Z.of_nat (length actions) = num_agents e)) as [Hlen|Hlen].
    + destruct (quiet_step e actions IH Hlen) as (obs & inf & e' & Hrun & Hq').
      rewrite Hrun. exact Hq'.
    + rewrite (step_wrong_length e actions Hlen). exact IH.
Qed.

(** C1. In every environment reachable from [reset] by calls of [step],
    every agent has [carrying = 0] and direction flag 0 (the outbound
    leg), and the cumulated reward, collisions and deliveries are 0. On
    such an environment no agent is marked collided, every agent takes the
    plain move branch (no pickup, no delivery), and a tick with one action
    per agent returns a reward of exactly 0 for every agent. *)
Theorem nothing_ever_happens (e : GridWorldEnv) :
  reachable e ->
  carrying e = replicate (Z.to_nat (num_agents e)) 0 /\
  directions e = replicate (Z.to_nat (num_agents e)) 0 /\
  Forall (fun d => leg_of d = OutboundAtoB) (directions e) /\
  total_reward e = 0%Q /\ total_collisions e = 0 /\ total_deliveries e = 0 /\
  forall actions,
    collided e actions = ∅ /\
    (forall i, event_of e actions i = Moved) /\
    (Z.of_nat (length actions) = num_agents e ->
       exists observations inf e',
         step actions e
         = (Ok (observations, replicate (length actions) 0%Q, false, inf), e')) /\
    (Z.of_nat (length actions) <> num_agents e ->
       step actions e = (Err AssertionError, e)).
Proof.
  intros Hreach. pose proof (reachable_quiet e Hreach) as Hq.
  pose proof Hq as (_ & Hc & Hd & Htr & Htc & Htd).
  split; [exact Hc|]. split; [exact Hd|].
  split; [rewrite Hd; apply Forall_replicate; reflexivity|].
  split; [exact Htr|]. split; [exact Htc|]. split; [exact Htd|].
  intros actions.
  split; [apply quiet_marks_nobody, Hq|].
  split; [intros i; apply quiet_events, Hq|].
  split.
  - intros Hlen.
    destruct (quiet_step e actions Hq Hlen) as (obs & inf & e' & Hrun & _).
    exists obs, inf, e'. exact Hrun.
  - apply step_wrong_length.
Qed.
End ReachableFacts.

(** ** Concrete runs *)

Section Runs.
Import Grid.

(** Two agents on opposite legs, both aiming at cell (1,2). *)
Lemma collided_stay_others_move_witness :
  let e := mkEnv 5 2 COLLISION_PENALTY DELIVERY_REWARD (0, 0) (4, 4)
                 [(1, 1); (1, 3)] [1; 0] [0; 1] 0 0 0 0 in
  well_formed e /\ Z.of_nat (length [EAST; WEST]) = num_agents e /\
  exists observations rewards inf e',
    step [EAST; WEST] e = (Ok (observations, rewards, false, inf), e') /\
    agent_positions e' !! 0%nat = Some (1, 1) /\
    agent_positions e' !! 1%nat = Some (1, 3).
Proof.
  intros e.
  assert (well_formed e) as Hwf by (repeat split).
  assert (Z.of_nat (length [EAST; WEST]) = num_agents e) as Hlen by reflexivity.
  split; [exact Hwf|]. split; [exact Hlen|].
  destruct (collided_stay_others_move e [EAST; WEST] Hwf Hlen)
    as (observations & rewards & inf & e' & Hrun & _ & Hpair).
  destruct (Hpair 0%nat 1%nat (1, 2) (1, 1) (1, 3))
    as (_ & _ & H0 & H1 & _); try reflexivity; try discriminate.
  exists observations, rewards, inf, e'. auto.
Defined.

(** Agent 0 arrives at SiteB carrying, agent 1 arrives back at SiteA. *)
Lemma pickup_and_delivery_witness :
  let e := mkEnv 5 2 COLLISION_PENALTY DELIVERY_REWARD (0, 0) (4, 4)
                 [(4, 3); (0, 1)] [1; 0] [0; 1] 0 0 0 0 in
  well_formed e /\ Z.of_nat (length [EAST; WEST]) = num_agents e /\
  exists observations rewards inf e',
    step [EAST; WEST] e = (Ok (observations, rewards, false, inf), e') /\
    total_deliveries e' = 1 /\
    carrying e' !! 0%nat = Some 0 /\ directions e' !! 0%nat = Some 1 /\
    carrying e' !! 1%nat = Some 1 /\ directions e' !! 1%nat = Some 0.
Proof.
  intros e.
  assert (well_formed e) as Hwf by (repeat split).
  assert (Z.of_nat (length [EAST; WEST]) = num_agents e) as Hlen by reflexivity.
  split; [exact Hwf|]. split; [exact Hlen|].
  destruct (pickup_and_delivery e [EAST; WEST] Hwf Hlen)
    as (observations & rewards & inf & e' & Hrun & Hdel & Hagents).
  assert (forall i : nat, i ∉ collided e [EAST; WEST]) as Hnone.
  { intros i. replace (collided e [EAST; WEST]) with (∅ : gset nat).
    - apply not_elem_of_empty.
    - vm_compute. reflexivity. }
  destruct (Hagents 0%nat (4, 4) 1 0 eq_refl eq_refl eq_refl (Hnone 0%nat))
    as (_ & Hdeliver & _).
  destruct Hdeliver as (_ & Hc0 & Hd0 & _).
  { intros [H _]. discriminate H. }
  { repeat split. }
  destruct (Hagents 1%nat (0, 0) 0 1 eq_refl eq_refl eq_refl (Hnone 1%nat))
    as (Hpick & _).
  destruct Hpick as (_ & Hc1 & Hd1 & _).
  { repeat split. }
  exists observations, rewards, inf, e'.
  split; [exact Hrun|]. split; [rewrite Hdel; vm_compute; reflexivity|]. auto.
Defined.

(** C5 (the claim as stated fails). A vector of the right length holding
    the code 7 is accepted by a freshly built environment: [step] returns
    and the agent given code 7 stays on its cell. *)
Lemma step_accepts_code_7 :
  let e := __init__ 5 4 COLLISION_PENALTY DELIVERY_REWARD (1, 1) (3, 3) in
  let actions := [7; NORTH; SOUTH; WEST] in
  reachable e /\
  Z.of_nat (length actions) = num_agents e /\
  (exists a, a ∈ actions /\ ~ valid_action a) /\
  is_ok (fst (step actions e)) = true /\
  agent_positions (snd (step actions e)) = [(1, 1); (0, 1); (2, 1); (1, 0)].
Proof.
  intros e actions. split; [|split; [|split; [|split]]].
  - apply reachable_init.
    + unfold in_grid. simpl. lia.
    + unfold in_grid. simpl. lia.
    + discriminate.
  - reflexivity.
  - exists 7. split; [left|].
    intros [H|[H|[H|H]]]; discriminate H.
  - vm_compute. reflexivity.
  - vm_compute. reflexivity.
Qed.

Lemma step_accepts_any_action_code_witness :
  let e := __init__ 5 4 COLLISION_PENALTY DELIVERY_REWARD (1, 1) (3, 3) in
  well_formed e /\ Z.of_nat (length [7; NORTH; SOUTH; WEST]) = num_agents e /\
  is_ok (fst (step [7; NORTH; SOUTH; WEST] e)) = true /\
  candidates e [7; NORTH; SOUTH; WEST] !! 0%nat = Some (1, 1).
Proof.
  intros e.
  assert (well_formed e) as Hwf by (repeat split).
  assert (Z.of_nat (length [7; NORTH; SOUTH; WEST]) = num_agents e) as Hlen
    by reflexivity.
  split; [exact Hwf|]. split; [exact Hlen|].
  destruct (step_accepts_any_action_code e [7; NORTH; SOUTH; WEST] Hwf Hlen)
    as [Hok Hnoop].
  split; [exact Hok|].
  apply (Hnoop 0%nat (1, 1) 7); try reflexivity.
  intros [H|[H|[H|H]]]; discriminate H.
Defined.

Lemma step_wrong_length_keeps_state_witness :
  let e := __init__ 5 4 COLLISION_PENALTY DELIVERY_REWARD (1, 1) (3, 3) in
  Z.of_nat (length [EAST]) <> num_agents e /\
  step [EAST] e = (Err AssertionError, e).
Proof.
  intros e.
  assert (Z.of_nat (length [EAST]) <> num_agents e) as Hlen by discriminate.
  split; [exact Hlen|].
  apply (step_wrong_length_keeps_state e [EAST] Hlen).
Defined.

Lemma nothing_ever_happens_witness :
  let e := snd (step [SOUTH; SOUTH; EAST; EAST]
                  (__init__ 5 4 COLLISION_PENALTY DELIVERY_REWARD (1, 1) (3, 3))) in
  reachable e /\
  carrying e = [0; 0; 0; 0] /\ directions e = [0; 0; 0; 0] /\
  total_deliveries e = 0.
Proof.
  intros e.
  assert (reachable e) as Hreach.
  { apply reachable_step, reachable_init.
    - unfold in_grid. simpl. lia.
    - unfold in_grid. simpl. lia.
    - discriminate. }
  split; [exact Hreach|].
  destruct (nothing_ever_happens e Hreach) as (Hc & Hd & _ & _ & _ & Htd & _).
  split; [exact Hc|]. split; [exact Hd | exact Htd].
Defined.

Lemma clock_is_cyclic_witness :
  [0; 1; 2; 3] <> [] /\
  exists x, [0; 1; 2; 3] !! (5 mod length [0; 1; 2; 3])%nat = Some x /\
            fst (Scheduler.nth_call 5 (Scheduler.__init__ [0; 1; 2; 3])) = Ok x.
Proof.
  assert ([0; 1; 2; 3] <> @nil Z) as Hne by discriminate.
  split; [exact Hne|].
  apply (proj1 clock_is_cyclic [0; 1; 2; 3] 5%nat Hne).
Defined.
End Runs.

(** ** More on the environment: moving on the grid *)

Section MoveFacts.
Import Grid.

Lemma next_position_stays_in_grid (e : GridWorldEnv) (p : pos) (a : Z) :
  in_grid (grid_size e) p -> in_grid (grid_size e) (_get_next_position e p a).
Proof.
  destruct p as [r c]. unfold _get_next_position, in_grid. simpl.
  intros Hin. repeat case_decide; simpl; lia.
Qed.

(** X1. [_get_next_position] never leaves the grid: from a cell of the grid,
    whatever the action code, the next position is a cell of the grid, at
    most one step away along one axis. *)
Theorem next_position_clamped (e : GridWorldEnv) (p : pos) (a : Z) :
  in_grid (grid_size e) p ->
  in_grid (grid_size e) (_get_next_position e p a) /\
  Z.abs (fst (_get_next_position e p a) - fst p)
  + Z.abs (snd (_get_next_position e p a) - snd p) <= 1.
Proof.
  intros Hin. split; [apply next_position_stays_in_grid, Hin|].
  destruct p as [r c]. unfold _get_next_position.
  repeat case_decide; simpl; lia.
Qed.

Lemma next_position_clamped_witness :
  in_grid 5 (0, 4) /\
  in_grid 5 (_get_next_position
               (__init__ 5 4 COLLISION_PENALTY DELIVERY_REWARD (1, 1) (3, 3))
               (0, 4) NORTH).
Proof.
  assert (in_grid 5 (0, 4)) as Hin by (unfold in_grid; simpl; lia).
  split; [exact Hin|].
  apply (next_position_clamped
           (__init__ 5 4 COLLISION_PENALTY DELIVERY_REWARD (1, 1) (3, 3))
           (0, 4) NORTH Hin).
Defined.

(** X2. Boundary clamp. From a cell of the grid, an action code of [Action]
    moves the agent by the vector of the [Dir] of the same name when the
    target cell is in the grid and leaves it where it is otherwise; any
    other code leaves it where it is. *)
Theorem next_position_moves_when_target_in_grid (e : GridWorldEnv) (p : pos) (a : Z) :
  in_grid (grid_size e) p ->
  _get_next_position e p a
  = match Config.action_dir a with
    | Some d =>
        let target := (fst p + fst (Config.vector d), snd p + snd (Config.vector d)) in
        if decide (in_grid (grid_size e) target) then target else p
    | None => p
    end.
Proof.
  destruct p as [r c]. unfold in_grid. simpl. intros Hin.
  unfold _get_next_position, Config.action_dir, NORTH, SOUTH, WEST, EAST.
  destruct (decide (a = 0)) as [->|H0].
  { simpl. unfold in_grid. simpl.
    repeat case_decide; try reflexivity; try (exfalso; lia); f_equal; lia. }
  destruct (decide (a = 1)) as [->|H1].
  { simpl. unfold in_grid. simpl.
    repeat case_decide; try reflexivity; try (exfalso; lia); f_equal; lia. }
  destruct (decide (a = 2)) as [->|H2].
  { simpl. unfold in_grid. simpl.
    repeat case_decide; try reflexivity; try (exfalso; lia); f_equal; lia. }
  destruct (decide (a = 3)) as [->|H3].
  { simpl. unfold in_grid. simpl.
    repeat case_decide; try reflexivity; try (exfalso; lia); f_equal; lia. }
  repeat case_decide; try reflexivity; exfalso; lia.
Qed.

Lemma next_position_moves_when_target_in_grid_witness :
  in_grid 5 (4, 2) /\
  _get_next_position
    (__init__ 5 4 COLLISION_PENALTY DELIVERY_REWARD (1, 1) (3, 3)) (4, 2) SOUTH
  = (4, 2) /\
  _get_next_position
    (__init__ 5 4 COLLISION_PENALTY DELIVERY_REWARD (1, 1) (3, 3)) (4, 2) EAST
  = (4, 3).
Proof.
  assert (in_grid 5 (4, 2)) as Hin by (unfold in_grid; simpl; lia).
  split; [exact Hin|]. split.
  - rewrite (next_position_moves_when_target_in_grid
               (__init__ 5 4 COLLISION_PENALTY DELIVERY_REWARD (1, 1) (3, 3))
               (4, 2) SOUTH Hin).
    reflexivity.
  - rewrite (next_position_moves_when_target_in_grid
               (__init__ 5 4 COLLISION_PENALTY DELIVERY_REWARD (1, 1) (3, 3))
               (4, 2) EAST Hin).
    reflexivity.
Defined.
End MoveFacts.

(** ** More on the environment: observations, counters and invariants *)

Section TickMore.
Import Grid.

Lemma observations_loop_spec (self e : GridWorldEnv) (l : list nat) :
  (forall i, i ∈ l -> (i < length (agent_positions self))%nat /\
                      (i < length (carrying self))%nat /\
                      (i < length (directions self))%nat) ->
  forall acc, exists observations,
    for_each (fun agent_idx observations =>
        let! p := getitem (agent_positions self) agent_idx in
        let! c := getitem (carrying self) agent_idx in
        let! d := getitem (directions self) agent_idx in
        ret (observations ++
               [mkObs p (location_A self) (location_B self) c d]))
      l acc e = (Ok (acc ++ observations), e) /\
    Forall2 (fun i o => observation_of self i = Some o) l observations.
Proof.
  induction l as [|i l IH]; intros Hrange acc; simpl.
  - exists []. rewrite app_nil_r. split; [reflexivity | constructor].
  - destruct (Hrange i) as (Hp & Hc & Hd); [left|].
    destruct (lookup_lt_is_Some_2 _ _ Hp) as [p Hpi].
    destruct (lookup_lt_is_Some_2 _ _ Hc) as [c Hci].
    destruct (lookup_lt_is_Some_2 _ _ Hd) as [d Hdi].
    rewrite bind_assoc. erewrite bind_ok by (apply getitem_ok; exact Hpi).
    rewrite bind_assoc. erewrite bind_ok by (apply getitem_ok; exact Hci).
    rewrite bind_assoc. erewrite bind_ok by (apply getitem_ok; exact Hdi).
    rewrite bind_ret.
    destruct (IH (fun j Hj => Hrange j (list_elem_of_further _ _ _ Hj))
                 (acc ++ [mkObs p (location_A self) (location_B self) c d]))
      as (rest & Hrun & Hall).
    exists (mkObs p (location_A self) (location_B self) c d :: rest).
    split.
    + rewrite Hrun, <- app_assoc. reflexivity.
    + constructor; [|exact Hall].
      unfold observation_of. rewrite Hpi, Hci, Hdi. reflexivity.
Qed.

(** [_get_observations] returns one entry per agent, in agent order. *)
Lemma get_observations_spec (e : GridWorldEnv) :
  well_formed e ->
  exists observations,
    _get_observations e = (Ok observations, e) /\
    Forall2 (fun i o => observation_of e i = Some o)
            (seq 0 (Z.to_nat (num_agents e))) observations.
Proof.
  intros (Hp & Hc & Hd). unfold _get_observations. rewrite bind_get.
  destruct (observations_loop_spec e e (seq 0 (Z.to_nat (num_agents e)))) with (acc := @nil observation)
    as (observations & Hrun & Hall).
  - intros i Hi. apply elem_of_seq in Hi. lia.
  - exists observations. split; [exact Hrun | exact Hall].
Qed.

Lemma observations_lookup (e : GridWorldEnv) (n : nat) (observations : list observation) :
  Forall2 (fun i o => observation_of e i = Some o) (seq 0 n) observations ->
  length observations = n /\
  forall i, (i < n)%nat -> observations !! i = observation_of e i.
Proof.
  intros Hall. split.
  - rewrite <- (Forall2_length _ _ _ Hall). apply length_seq.
  - intros i Hi.
    destruct (Forall2_lookup_l _ _ _ i i Hall) as (o & Ho & Hobs).
    { apply lookup_seq. split; [reflexivity | exact Hi]. }
    rewrite Ho, Hobs. reflexivity.
Qed.

(** A tick that returns, with the observations it returns. *)
Lemma step_run (e : GridWorldEnv) (actions : list Z) :
  well_formed e -> Z.of_nat (length actions) = num_agents e ->
  exists observations rewards e',
    step actions e
    = (Ok (observations, rewards, false,
           mkInfo (steps e') (total_reward e') (total_collisions e')
                  (total_deliveries e')), e') /\
    well_formed e' /\
    Forall2 (fun i o => observation_of e' i = Some o)
            (seq 0 (length actions)) observations.
Proof.
  intros Hwf Hlen.
  pose proof Hwf as (Hp & Hc & Hd).
  assert (Z.to_nat (num_agents e) = length actions) as Hn by lia.
  assert (length (candidates e actions) = length actions) as Hcands.
  { unfold candidates. rewrite length_zip_with. lia. }
  set (st := update_all (collided e actions) 0 (candidates e actions)
               (replicate (length actions) 0%Q, set_steps (steps e + 1) e)).
  set (e' := set_total_reward (total_reward st.2 + py_sum st.1)%Q st.2).
  destruct (update_all_setting (collided e actions) (candidates e actions) 0
              (replicate (length actions) 0%Q, set_steps (steps e + 1) e))
    as [Hset Hsize].
  fold st in Hset, Hsize.
  destruct Hset as (Hs1 & Hs2 & Hs3 & Hs4 & Hs5 & Hs6 & Hs7 & Hs8).
  destruct Hsize as (Hz1 & Hz2 & Hz3 & Hz4).
  cbn [fst snd set_steps agent_positions carrying directions num_agents]
    in Hs2, Hz1, Hz2, Hz3.
  assert (well_formed e') as Hwf'.
  { unfold well_formed, e'.
    cbn [set_total_reward agent_positions carrying directions num_agents].
    rewrite Hs2, Hz1, Hz2, Hz3. exact Hwf. }
  destruct (get_observations_spec e' Hwf') as (observations & Hobs & Hall).
  assert (num_agents e' = num_agents e) as Hnum.
  { unfold e'. cbn [set_total_reward num_agents]. exact Hs2. }
  rewrite Hnum, Hn in Hall.
  exists observations, st.1, e'. split; [|split; [exact Hwf' | exact Hall]].
  unfold step. rewrite bind_get.
  rewrite bool_decide_true by exact Hlen.
  cbn [py_assert]. rewrite bind_ret, bind_modify.
  assert (for_enum project_move 0 actions [] (set_steps (steps e + 1) e)
          = (Ok (candidates e actions), set_steps (steps e + 1) e)) as Hproj.
  { rewrite project_loop by (cbn [set_steps agent_positions]; lia). reflexivity. }
  erewrite bind_ok by exact Hproj.
  rewrite bind_get.
  erewrite bind_ok.
  2:{ apply (proj1 (detect_after_count e actions (steps e + 1) Hwf)). }
  cbn [set_steps num_agents]. rewrite Hn.
  erewrite bind_ok.
  2:{ apply update_loop; cbn [set_steps agent_positions carrying directions];
      rewrite ?length_replicate, Hcands; lia. }
  fold st. rewrite bind_modify. fold e'.
  erewrite bind_ok by exact Hobs.
  rewrite bind_get. reflexivity.
Qed.

(** X3. A tick that is given one action per agent returns one reward and
    one observation per agent and [done = False]; it adds exactly 1 to the
    step counter, its [info] dictionary holds the four counters of the
    environment as the tick leaves it, and the options and both sites are
    what they were. *)
Theorem step_bookkeeping (e : GridWorldEnv) (actions : list Z) :
  well_formed e -> Z.of_nat (length actions) = num_agents e ->
  exists observations rewards inf e',
    step actions e = (Ok (observations, rewards, false, inf), e') /\
    length rewards = length actions /\
    length observations = length actions /\
    inf = mkInfo (steps e') (total_reward e') (total_collisions e')
                 (total_deliveries e') /\
    steps e' = steps e + 1 /\
    same_config e e' /\
    well_formed e'.
Proof.
  intros Hwf Hlen.
  destruct (step_run e actions Hwf Hlen) as (observations & rewards & e' & Hrun & Hwf' & Hall).
  destruct (step_agentwise e actions Hwf Hlen)
    as (obs2 & rewards2 & inf2 & e2 & Hrun2 & Hsize & [Hcfg Hsteps] & _).
  rewrite Hrun in Hrun2. injection Hrun2 as <- <- <- <-.
  destruct Hsize as (_ & _ & _ & Hlr). cbn [fst] in Hlr.
  rewrite length_replicate in Hlr.
  destruct (observations_lookup e' _ _ Hall) as [Hlo _].
  eexists observations, rewards, _, e'. split; [exact Hrun|].
  split; [exact Hlr|]. split; [exact Hlo|]. split; [reflexivity|].
  split; [exact Hsteps|]. split; [exact Hcfg | exact Hwf'].
Qed.

Lemma step_bookkeeping_witness :
  let e := mkEnv 5 2 COLLISION_PENALTY DELIVERY_REWARD (0, 0) (4, 4)
                 [(4, 3); (0, 1)] [1; 0] [0; 1] 7 0 0 0 in
  well_formed e /\ Z.of_nat (length [EAST; WEST]) = num_agents e /\
  exists observations rewards inf e',
    step [EAST; WEST] e = (Ok (observations, rewards, false, inf), e') /\
    steps e' = 8.
Proof.
  intros e.
  assert (well_formed e) as Hwf by (repeat split).
  assert (Z.of_nat (length [EAST; WEST]) = num_agents e) as Hlen by reflexivity.
  split; [exact Hwf|]. split; [exact Hlen|].
  destruct (step_bookkeeping e [EAST; WEST] Hwf Hlen)
    as (observations & rewards & inf & e' & Hrun & _ & _ & _ & Hsteps & _).
  exists observations, rewards, inf, e'. split; [exact Hrun | exact Hsteps].
Defined.

(** X4. The observations a tick returns describe the environment as the
    tick leaves it: entry [i] holds the position, carrying flag and
    direction flag agent [i] has after the tick, and the two sites. *)
Theorem step_observations (e : GridWorldEnv) (actions : list Z) :
  well_formed e -> Z.of_nat (length actions) = num_agents e ->
  exists observations rewards inf e',
    step actions e = (Ok (observations, rewards, false, inf), e') /\
    forall i, (i < length actions)%nat ->
      exists p c d,
        agent_positions e' !! i = Some p /\ carrying e' !! i = Some c /\
        directions e' !! i = Some d /\
        observations !! i = Some (mkObs p (location_A e) (location_B e) c d).
Proof.
  intros Hwf Hlen.
  destruct (step_run e actions Hwf Hlen) as (observations & rewards & e' & Hrun & Hwf' & Hall).
  destruct (step_agentwise e actions Hwf Hlen)
    as (obs2 & rewards2 & inf2 & e2 & Hrun2 & _ & [Hcfg _] & _).
  rewrite Hrun in Hrun2. injection Hrun2 as <- <- <- <-.
  destruct Hcfg as (_ & Hnum & _ & _ & HA & HB).
  destruct (observations_lookup e' _ _ Hall) as [_ Hobs].
  eexists observations, rewards, _, e'. split; [exact Hrun|].
  intros i Hi. destruct Hwf' as (Hp & Hc & Hd).
  assert (Z.to_nat (num_agents e') = length actions) as Hn by lia.
  destruct (lookup_lt_is_Some_2 (agent_positions e') i) as [p Hpi]; [lia|].
  destruct (lookup_lt_is_Some_2 (carrying e') i) as [c Hci]; [lia|].
  destruct (lookup_lt_is_Some_2 (directions e') i) as [d Hdi]; [lia|].
  exists p, c, d. split; [exact Hpi|]. split; [exact Hci|]. split; [exact Hdi|].
  rewrite (Hobs i Hi). unfold observation_of. rewrite Hpi, Hci, Hdi, HA, HB.
  reflexivity.
Qed.

Lemma step_observations_witness :
  let e := mkEnv 5 2 COLLISION_PENALTY DELIVERY_REWARD (0, 0) (4, 4)
                 [(4, 3); (0, 1)] [1; 0] [0; 1] 0 0 0 0 in
  well_formed e /\ Z.of_nat (length [EAST; WEST]) = num_agents e /\
  exists observations rewards inf e',
    step [EAST; WEST] e = (Ok (observations, rewards, false, inf), e') /\
    length observations = 2%nat.
Proof.
  intros e.
  assert (well_formed e) as Hwf by (repeat split).
  assert (Z.of_nat (length [EAST; WEST]) = num_agents e) as Hlen by reflexivity.
  split; [exact Hwf|]. split; [exact Hlen|].
  destruct (step_observations e [EAST; WEST] Hwf Hlen)
    as (observations & rewards & inf & e' & Hrun & Hobs).
  exists observations, rewards, inf, e'. split; [exact Hrun|].
  destruct (Hobs 0%nat) as (p0 & c0 & d0 & _ & _ & _ & H0); [simpl; lia|].
  destruct (Hobs 1%nat) as (p1 & c1 & d1 & _ & _ & _ & H1); [simpl; lia|].
  assert (step [EAST; WEST] e
          = (Ok ([mkObs (4, 4) (0, 0) (4, 4) 0 1; mkObs (0, 0) (0, 0) (4, 4) 1 0],
                 [1%Q; 0%Q], false, mkInfo 1 1 0 1),
             mkEnv 5 2 COLLISION_PENALTY DELIVERY_REWARD (0, 0) (4, 4)
                   [(4, 4); (0, 0)] [0; 1] [1; 0] 1 1 0 1)) as Heval
    by (vm_compute; reflexivity).
  rewrite Heval in Hrun. injection Hrun as <- _ _ _. reflexivity.
Defined.
End TickMore.

(** ** More on the environment: accounting and invariants of a tick *)

Section TickInvariants.
Import Grid.







(** The flags of every agent after a tick, against the flags before. *)
Lemma step_flags (e : GridWorldEnv) (actions : list Z) :
  well_formed e -> Z.of_nat (length actions) = num_agents e ->
  forall i c' d',
    carrying (snd (step actions e)) !! i = Some c' ->
    directions (snd (step actions e)) !! i = Some d' ->
    exists c d, carrying e !! i = Some c /\ directions e !! i = Some d /\
      ((c' = c /\ d' = d) \/ (c' = 1 /\ d' = 0) \/ (c' = 0 /\ d' = 1)).
Proof.
  intros Hwf Hlen i c' d' Hc' Hd'.
  destruct (step_agentwise e actions Hwf Hlen)
    as (observations & rewards & inf & e' & Hrun & Hsize & _ & _ & _ & _ & Hrows).
  rewrite Hrun in Hc', Hd'. cbn [snd] in Hc', Hd'.
  destruct Hsize as (Hz1 & Hz2 & Hz3 & _). cbn [fst snd] in Hz1, Hz2, Hz3.
  destruct Hwf as (Hp & Hc & Hd).
  assert (i < length actions)%nat as Hi.
  { apply lookup_lt_Some in Hc'. lia. }
  destruct (lookup_lt_is_Some_2 (agent_positions e) i) as [p Hpi]; [lia|].
  destruct (lookup_lt_is_Some_2 (candidates e actions) i) as [q Hq].
  { unfold candidates. rewrite length_zip_with. lia. }
  destruct (lookup_lt_is_Some_2 (carrying e) i) as [c Hci]; [lia|].
  destruct (lookup_lt_is_Some_2 (directions e) i) as [d Hdi]; [lia|].
  specialize (Hrows i p q c d Hpi Hq Hci Hdi).
  exists c, d. split; [exact Hci|]. split; [exact Hdi|].
  unfold row in Hrows. cbn [fst snd] in Hrows.
  rewrite Hc', Hd' in Hrows.
  destruct (classify e (collided e actions) i q c d); simpl in Hrows;
    injection Hrows as _ -> -> _; auto.
Qed.

(** The position of every agent after a tick: where it was, or its
    candidate. *)
Lemma step_positions (e : GridWorldEnv) (actions : list Z) :
  well_formed e -> Z.of_nat (length actions) = num_agents e ->
  forall i p',
    agent_positions (snd (step actions e)) !! i = Some p' ->
    exists p a, agent_positions e !! i = Some p /\ actions !! i = Some a /\
                (p' = p \/ p' = _get_next_position e p a).
Proof.
  intros Hwf Hlen i p' Hp'.
  destruct (step_agentwise e actions Hwf Hlen)
    as (observations & rewards & inf & e' & Hrun & Hsize & _ & _ & _ & _ & Hrows).
  rewrite Hrun in Hp'. cbn [snd] in Hp'.
  destruct Hsize as (Hz1 & Hz2 & Hz3 & _). cbn [fst snd] in Hz1, Hz2, Hz3.
  destruct Hwf as (Hp & Hc & Hd).
  assert (i < length actions)%nat as Hi.
  { apply lookup_lt_Some in Hp'. lia. }
  destruct (lookup_lt_is_Some_2 (candidates e actions) i) as [q Hq].
  { unfold candidates. rewrite length_zip_with. lia. }
  destruct (lookup_lt_is_Some_2 (carrying e) i) as [c Hci]; [lia|].
  destruct (lookup_lt_is_Some_2 (directions e) i) as [d Hdi]; [lia|].
  pose proof Hq as Hzip. unfold candidates in Hzip.
  apply lookup_zip_with_Some in Hzip as (p & a & -> & Hpi & Hai).
  specialize (Hrows i p _ c d Hpi Hq Hci Hdi).
  exists p, a. split; [exact Hpi|]. split; [exact Hai|].
  unfold row in Hrows. cbn [fst snd] in Hrows. rewrite Hp' in Hrows.
  destruct (classify e (collided e actions) i (_get_next_position e p a) c d);
    simpl in Hrows; injection Hrows as -> _ _ _; auto.
Qed.

(** What a call of [step] keeps, whether it returns or raises on the
    length of [actions]. *)
Lemma step_keeps_shape (e : GridWorldEnv) (actions : list Z) :
  well_formed e ->
  well_formed (snd (step actions e)) /\ same_config e (snd (step actions e)).
Proof.
  intros Hwf.
  destruct (decide (Z.of_nat (length actions) = num_agents e)) as [Hlen|Hlen].
  - destruct (step_run e actions Hwf Hlen) as (obs & rewards & e' & Hrun & Hwf' & _).
    destruct (step_agentwise e actions Hwf Hlen)
      as (obs2 & rewards2 & inf2 & e2 & Hrun2 & _ & [Hcfg _] & _).
    rewrite Hrun in Hrun2. injection Hrun2 as <- <- <- <-.
    rewrite Hrun. split; [exact Hwf' | exact Hcfg].
  - rewrite (step_wrong_length e actions Hlen). split; [exact Hwf | repeat split].
Qed.

Lemma step_keeps_agents_in_grid (e : GridWorldEnv) (actions : list Z) :
  well_formed e -> agents_in_grid e -> agents_in_grid (snd (step actions e)).
Proof.
  intros Hwf Hgrid.
  destruct (decide (Z.of_nat (length actions) = num_agents e)) as [Hlen|Hlen].
  - destruct (step_keeps_shape e actions Hwf) as [_ (Hgs & _)].
    unfold agents_in_grid in *. rewrite Hgs.
    apply Forall_lookup. intros i p' Hp'.
    destruct (step_positions e actions Hwf Hlen i p' Hp') as (p & a & Hp & _ & Hcase).
    pose proof (Forall_lookup_1 _ _ _ _ Hgrid Hp) as Hin.
    destruct Hcase as [-> | ->]; [exact Hin|].
    apply next_position_stays_in_grid, Hin.
  - rewrite (step_wrong_length e actions Hlen). exact Hgrid.
Qed.

(** X6. A call of [step], whatever the actions, keeps every agent on the
    grid, keeps one entry per agent in the three per-agent lists, and
    leaves the grid size, the number of agents, the two reward options and
    the two sites as they were. *)
Theorem step_keeps_agents_on_grid (e : GridWorldEnv) (actions : list Z) :
  well_formed e -> agents_in_grid e ->
  agents_in_grid (snd (step actions e)) /\
  well_formed (snd (step actions e)) /\
  same_config e (snd (step actions e)).
Proof.
  intros Hwf Hgrid. split; [apply step_keeps_agents_in_grid; assumption|].
  apply step_keeps_shape, Hwf.
Qed.

Lemma step_keeps_agents_on_grid_witness :
  let e := mkEnv 5 2 COLLISION_PENALTY DELIVERY_REWARD (0, 0) (4, 4)
                 [(4, 4); (0, 1)] [1; 0] [0; 1] 0 0 0 0 in
  well_formed e /\ agents_in_grid e /\
  agents_in_grid (snd (step [SOUTH; NORTH] e)).
Proof.
  intros e.
  assert (well_formed e) as Hwf by (repeat split).
  assert (agents_in_grid e) as Hgrid.
  { unfold agents_in_grid, in_grid. simpl. repeat constructor; simpl; lia. }
  split; [exact Hwf|]. split; [exact Hgrid|].
  apply (step_keeps_agents_on_grid e [SOUTH; NORTH] Hwf Hgrid).
Defined.

(** X7. A call of [step] keeps the carrying flags and the direction flags
    in {0, 1}, and keeps agents on the return leg empty-handed: the only
    flag changes are a pickup, to carrying on the outbound leg, and a
    delivery, to not carrying on the return leg. *)
Theorem step_keeps_flags (e : GridWorldEnv) (actions : list Z) :
  well_formed e -> flags_binary e -> returning_empty_handed e ->
  flags_binary (snd (step actions e)) /\
  returning_empty_handed (snd (step actions e)).
Proof.
  intros Hwf [Hbc Hbd] Hret.
  destruct (decide (Z.of_nat (length actions) = num_agents e)) as [Hlen|Hlen].
  2:{ rewrite (step_wrong_length e actions Hlen). split; [split|]; assumption. }
  destruct (step_keeps_shape e actions Hwf) as [(Hp' & Hc' & Hd') _].
  assert (forall i c' d',
            carrying (snd (step actions e)) !! i = Some c' ->
            directions (snd (step actions e)) !! i = Some d' ->
            (c' = 0 \/ c' = 1) /\ (d' = 0 \/ d' = 1) /\ (d' = 1 -> c' = 0)) as Hall.
  { intros i c' d' Hci' Hdi'.
    destruct (step_flags e actions Hwf Hlen i c' d' Hci' Hdi')
      as (c & d & Hci & Hdi & Hcase).
    pose proof (Forall_lookup_1 _ _ _ _ Hbc Hci) as Hc01.
    pose proof (Forall_lookup_1 _ _ _ _ Hbd Hdi) as Hd01.
    pose proof (Hret i c d Hci Hdi) as Hr.
    destruct Hcase as [[-> ->] | [[-> ->] | [-> ->]]]; repeat split; auto; lia. }
  split; [split|].
  - apply Forall_lookup. intros i c' Hci'.
    destruct (lookup_lt_is_Some_2 (directions (snd (step actions e))) i) as [d' Hdi'].
    { apply lookup_lt_Some in Hci'. lia. }
    apply (Hall i c' d' Hci' Hdi').
  - apply Forall_lookup. intros i d' Hdi'.
    destruct (lookup_lt_is_Some_2 (carrying (snd (step actions e))) i) as [c' Hci'].
    { apply lookup_lt_Some in Hdi'. lia. }
    apply (Hall i c' d' Hci' Hdi').
  - intros i c' d' Hci' Hdi'. apply (Hall i c' d' Hci' Hdi').
Qed.

Lemma step_keeps_flags_witness :
  let e := mkEnv 5 2 COLLISION_PENALTY DELIVERY_REWARD (0, 0) (4, 4)
                 [(4, 3); (0, 1)] [1; 0] [0; 1] 0 0 0 0 in
  well_formed e /\ flags_binary e /\ returning_empty_handed e /\
  flags_binary (snd (step [EAST; WEST] e)).
Proof.
  intros e.
  assert (well_formed e) as Hwf by (repeat split).
  assert (flags_binary e) as Hbin.
  { split; simpl; repeat (apply List.Forall_cons; [lia|]); apply List.Forall_nil. }
  assert (returning_empty_handed e) as Hret.
  { intros [|[|i]] c d Hc Hd Hd1; simpl in Hc, Hd;
      rewrite ?lookup_nil in Hc; congruence. }
  split; [exact Hwf|]. split; [exact Hbin|]. split; [exact Hret|].
  apply (step_keeps_flags e [EAST; WEST] Hwf Hbin Hret).
Defined.



End TickInvariants.

(** ** More on the scheduler *)

Section SchedulerMore.
Import Scheduler.


(** X11. [shuffle] with an explicit order has two outcomes. When the order
    has the same set of identifiers as the current list, it is accepted and
    the clock is the one a fresh [CentralClock] over that order would be.
    Otherwise the assertion fails and the clock is untouched: the list and
    the position in the running cycle are what they were. *)
Theorem shuffle_outcome (rng : list Z -> list Z) (order : list Z) (c : CentralClock) :
  (list_to_set order =@{gset Z} list_to_set (agent_ids c) /\
   shuffle rng (Some order) c = (Ok tt, __init__ order)) \/
  (list_to_set order ≠@{gset Z} list_to_set (agent_ids c) /\
   shuffle rng (Some order) c = (Err AssertionError, c)).
Proof.
  destruct (decide (list_to_set order =@{gset Z} list_to_set (agent_ids c)))
    as [Heq|Hne].
  - left. split; [exact Heq|]. apply shuffle_explicit_restarts, Heq.
  - right. split; [exact Hne|].
    unfold shuffle. rewrite bind_get.
    rewrite bool_decide_false by exact Hne. reflexivity.
Qed.

(** X12. [shuffle()] without an order never fails: the identifier list
    becomes the outcome of [random.shuffle] and the cycle restarts on it, so
    the [k]-th call after it yields element [k mod len] of the shuffled
    list. *)
Theorem shuffle_random_restarts (rng : list Z -> list Z) (c : CentralClock) (k : nat) :
  rng (agent_ids c) <> [] ->
  shuffle rng None c = (Ok tt, __init__ (rng (agent_ids c))) /\
  exists x,
    rng (agent_ids c) !! (k mod length (rng (agent_ids c)))%nat = Some x /\
    fst (nth_call k (snd (shuffle rng None c))) = Ok x.
Proof.
  intros Hne.
  assert (shuffle rng None c = (Ok tt, __init__ (rng (agent_ids c)))) as Hrun
    by reflexivity.
  split; [exact Hrun|]. rewrite Hrun. cbn [snd].
  destruct (lookup_lt_is_Some_2 (rng (agent_ids c))
              (k mod length (rng (agent_ids c)))%nat) as [x Hx].
  { apply Nat.mod_upper_bound. destruct (rng (agent_ids c)); [congruence | simpl; lia]. }
  exists x. split; [exact Hx|].
  rewrite <- clock_after_0.
  rewrite (nth_call_clock_after _ k 0 x Hne Hx). reflexivity.
Qed.

Lemma shuffle_random_restarts_witness :
  rev (agent_ids (__init__ [0; 1; 2; 3])) <> [] /\
  exists x,
    rev [0; 1; 2; 3] !! (5 mod 4)%nat = Some x /\
    fst (nth_call 5 (snd (shuffle (@rev Z) None (__init__ [0; 1; 2; 3])))) = Ok x.
Proof.
  assert (rev (agent_ids (__init__ [0; 1; 2; 3])) <> []) as Hne by discriminate.
  split; [exact Hne|].
  apply (shuffle_random_restarts (@rev Z) (__init__ [0; 1; 2; 3]) 5 Hne).
Defined.

(** [n] successive calls, started after [j] earlier ones. *)
Lemma take_calls_clock_after (ids : list Z) :
  ids <> [] ->
  forall n j, exists w,
    take_calls n (clock_after ids j) = (Ok w, clock_after ids (j + n)) /\
    length w = n /\
    forall k, (k < n)%nat -> w !! k = ids !! ((j + k) mod length ids)%nat.
Proof.
  intros Hne. induction n as [|n IH]; intros j.
  - exists []. rewrite Nat.add_0_r. split; [reflexivity|]. split; [reflexivity|].
    intros k Hk. lia.
  - destruct (lookup_lt_is_Some_2 ids (j mod length ids)%nat) as [x Hx].
    { apply Nat.mod_upper_bound. destruct ids; [congruence | simpl; lia]. }
    destruct (IH (S j)) as (w & Hrun & Hlen & Hw).
    exists (x :: w). split; [|split].
    + cbn [take_calls].
      erewrite bind_ok by (apply next_clock_after; exact Hx).
      erewrite bind_ok by exact Hrun.
      replace (j + S n)%nat with (S j + n)%nat by lia. reflexivity.
    + simpl. rewrite Hlen. reflexivity.
    + intros [|k] Hk; simpl.
      * rewrite Nat.add_0_r. symmetry. exact Hx.
      * rewrite Hw by lia. f_equal. f_equal. lia.
Qed.

(** X13. Round-robin fairness. At any point of the life of a clock over a
    non-empty list, the next [len(agent_ids)] calls return a rotation of the
    list: every identifier is served as often as it occurs in the list, in
    the order of the list. *)
Theorem clock_window_is_rotation (ids : list Z) (j : nat) :
  ids <> [] ->
  exists w,
    fst (take_calls (length ids) (snd (take_calls j (__init__ ids)))) = Ok w /\
    w = rotate j ids /\
    w ≡ₚ ids.
Proof.
  intros Hne.
  destruct (take_calls_clock_after ids Hne j 0) as (w0 & Hrun0 & _).
  rewrite clock_after_0 in Hrun0. rewrite Hrun0. cbn [snd Nat.add].
  destruct (take_calls_clock_after ids Hne (length ids) j) as (w & Hrun & Hlen & Hw).
  exists w. rewrite Hrun. split; [reflexivity|].
  assert (w = rotate j ids) as ->.
  { apply list_eq. intros k.
    destruct (decide (k < length ids)%nat) as [Hk|Hk].
    - rewrite (Hw k Hk), lookup_rotate_r by exact Hk.
      f_equal. unfold rotate_nat_add.
      rewrite <- Nat2Z.inj_add, <- Nat2Z.inj_mod, Nat2Z.id. reflexivity.
    - rewrite !lookup_ge_None_2; [reflexivity | rewrite length_rotate; lia | lia]. }
  split; [reflexivity|].
  unfold rotate. rewrite Permutation_app_comm, take_drop. reflexivity.
Qed.

Lemma clock_window_is_rotation_witness :
  [0; 1; 2; 3] <> [] /\
  exists w,
    fst (take_calls (length [0; 1; 2; 3])
           (snd (take_calls 6 (__init__ [0; 1; 2; 3])))) = Ok w /\
    w = [2; 3; 0; 1].
Proof.
  assert ([0; 1; 2; 3] <> @nil Z) as Hne by discriminate.
  split; [exact Hne|].
  destruct (clock_window_is_rotation [0; 1; 2; 3] 6 Hne) as (w & Hrun & Hrot & _).
  exists w. split; [exact Hrun|]. rewrite Hrot. reflexivity.
Defined.

Lemma round_robin_take_calls (n : nat) :
  forall rr : RoundRobin,
    RoundRobin_take_calls n rr
    = (fst (take_calls n (clock rr)), mkRoundRobin (snd (take_calls n (clock rr)))).
Proof.
  induction n as [|n IH]; intros [c]; simpl.
  - reflexivity.
  - unfold bind at 1 3 5. unfold RoundRobin_next. cbn [clock].
    destruct (__next__ c) as [[x|err] c1]; [|reflexivity].
    unfold bind. rewrite IH. cbn [clock].
    destruct (take_calls n c1) as [[xs|err] c2]; reflexivity.
Qed.

(** X14. [RoundRobin] is [CentralClock] under another name: built on the
    same list and given the same [shuffle] requests, it accepts and rejects
    them alike and hands out the same identifiers, call after call. *)
Theorem round_robin_is_central_clock (ids : list Z) (n : nat)
    (rng : list Z -> list Z) (new_order : option (list Z)) (m : nat) :
  fst (RoundRobin_take_calls n (RoundRobin_init ids))
  = fst (take_calls n (__init__ ids)) /\
  (let rr := snd (RoundRobin_take_calls n (RoundRobin_init ids)) in
   let c := snd (take_calls n (__init__ ids)) in
   fst (RoundRobin_shuffle rng new_order rr) = fst (shuffle rng new_order c) /\
   fst (RoundRobin_take_calls m (snd (RoundRobin_shuffle rng new_order rr)))
   = fst (take_calls m (snd (shuffle rng new_order c)))).
Proof.
  rewrite round_robin_take_calls. unfold RoundRobin_init. cbn [clock fst snd].
  split; [reflexivity|].
  unfold RoundRobin_shuffle. cbn [clock].
  destruct (shuffle rng new_order (snd (take_calls n (__init__ ids)))) as [r c'].
  cbn [fst snd]. split; [reflexivity|].
  rewrite round_robin_take_calls. reflexivity.
Qed.
End SchedulerMore.

(** ** More on the occupancy sensor *)

Section SensorMore.
Import Sensors.

(** X15. [neighbour_coords] lists the Moore neighbourhood and nothing else:
    eight distinct cells, a cell being listed exactly when it is one step
    away from the centre, diagonals included (the centre is not). *)
Theorem neighbour_coords_moore (pos cell : Pos) :
  (cell ∈ neighbour_coords pos <->
   Z.max (Z.abs (fst cell - fst pos)) (Z.abs (snd cell - snd pos)) = 1) /\
  NoDup (neighbour_coords pos) /\
  length (neighbour_coords pos) = 8%nat.
Proof.
  destruct pos as [x y], cell as [a b]. unfold neighbour_coords. simpl.
  split; [|split].
  - rewrite !elem_of_cons, elem_of_nil. split.
    + intros H. repeat (destruct H as [H|H]; [injection H as -> ->; lia|]).
      destruct H.
    + intros H.
      assert (a = x - 1 \/ a = x \/ a = x + 1) as Ha by lia.
      assert (b = y - 1 \/ b = y \/ b = y + 1) as Hb by lia.
      destruct Ha as [-> | [-> | ->]]; destruct Hb as [-> | [-> | ->]];
        try (exfalso; lia); tauto.
  - repeat (apply NoDup_cons; split;
            [rewrite ?elem_of_cons, elem_of_nil;
             intros H; repeat (destruct H as [H|H]; [injection H; lia|]); destruct H|]).
    apply NoDup_nil_2.
  - reflexivity.
Qed.

Lemma neighbour_lookup (pos : Pos) (d : compass) :
  neighbour_coords pos !! compass_bit d
  = Some (fst pos + fst (compass_offset d), snd pos + snd (compass_offset d)).
Proof. destruct pos as [x y]. destruct d; simpl; repeat f_equal; lia. Qed.

(** The sensor on an object that has what it reads: the mask is the bit of
    each neighbour, in the order of [neighbour_coords]. *)
Lemma opp_dir_mask_run (o : gmap string attr) (agent_states : gmap Z agent_state)
    (grid_size agent_id : Z) (me : agent_state) :
  o !! "agent_states"%string = Some (AStates agent_states) ->
  o !! "grid_size"%string = Some (AInt grid_size) ->
  agent_states !! agent_id = Some me ->
  opp_dir_mask agent_id o
  = (Ok (mask_bit agent_states grid_size agent_id (direction me)
           <$> neighbour_coords (position me)), o).
Proof.
  intros Hstates Hgrid Hme.
  destruct (mask_loop agent_states agent_id (direction me) grid_size o
              (neighbour_coords (position me)) 0 (replicate 8 false))
    as (mask & Hloop & Hlen & Hbits).
  { destruct (position me). simpl. lia. }
  { intros j _ Hj. apply lookup_replicate_2. rewrite length_replicate in Hj. exact Hj. }
  rewrite length_replicate in Hlen.
  assert (length (neighbour_coords (position me)) = 8%nat) as Hn
    by (destruct (position me); reflexivity).
  assert (mask = mask_bit agent_states grid_size agent_id (direction me)
                   <$> neighbour_coords (position me)) as <-.
  { apply list_eq. intros k. rewrite list_lookup_fmap.
    destruct (neighbour_coords (position me) !! k) as [cell|] eqn:Hk.
    - apply (Hbits k cell Hk).
    - apply lookup_ge_None_2. apply lookup_ge_None_1 in Hk. lia. }
  unfold opp_dir_mask.
  erewrite bind_ok by (apply getattr_ok; exact Hstates).
  cbn [as_states]. rewrite bind_ret, Hme.
  erewrite bind_ok by (apply getattr_ok; exact Hgrid).
  cbn [as_int]. rewrite bind_ret. exact Hloop.
Qed.

(** X16. Asking for an agent that the table does not hold raises
    [KeyError], before the grid size is even read, and leaves the object as
    it was. *)
Theorem opp_dir_mask_unknown_agent (o : gmap string attr)
    (agent_states : gmap Z agent_state) (agent_id : Z) :
  o !! "agent_states"%string = Some (AStates agent_states) ->
  agent_states !! agent_id = None ->
  opp_dir_mask agent_id o = (Err KeyError, o).
Proof.
  intros Hstates Hme. unfold opp_dir_mask.
  erewrite bind_ok by (apply getattr_ok; exact Hstates).
  cbn [as_states]. rewrite bind_ret, Hme. reflexivity.
Qed.

Lemma opp_dir_mask_unknown_agent_witness :
  opp_dir_mask 7
    (list_to_map [("agent_states"%string,
                   AStates (list_to_map [(0, mkAgentState (2, 2) 0)]))])
  = (Err KeyError,
     list_to_map [("agent_states"%string,
                   AStates (list_to_map [(0, mkAgentState (2, 2) 0)]))]).
Proof.
  apply (opp_dir_mask_unknown_agent _ (list_to_map [(0, mkAgentState (2, 2) 0)]) 7).
  - reflexivity.
  - reflexivity.
Defined.

(** X17. Sight is mutual. Two agents of the table with different direction
    flags, standing on neighbouring cells of the grid, see each other: the
    bit of the neighbour's side is set in the mask of the one, and the bit
    of the opposite side in the mask of the other. *)
Theorem opp_dir_mask_mutual (o : gmap string attr) (agent_states : gmap Z agent_state)
    (grid_size a b : Z) (sa sb : agent_state) (d : compass) :
  o !! "agent_states"%string = Some (AStates agent_states) ->
  o !! "grid_size"%string = Some (AInt grid_size) ->
  agent_states !! a = Some sa ->
  agent_states !! b = Some sb ->
  direction sa <> direction sb ->
  position sb = (fst (position sa) + fst (compass_offset d),
                 snd (position sa) + snd (compass_offset d)) ->
  0 <= fst (position sa) < grid_size /\ 0 <= snd (position sa) < grid_size ->
  0 <= fst (position sb) < grid_size /\ 0 <= snd (position sb) < grid_size ->
  exists mask_a mask_b,
    opp_dir_mask a o = (Ok mask_a, o) /\
    opp_dir_mask b o = (Ok mask_b, o) /\
    mask_a !! compass_bit d = Some true /\
    mask_b !! compass_bit (compass_opposite d) = Some true.
Proof.
  intros Hstates Hgrid Ha Hb Hdir Hpos Hina Hinb.
  assert (a <> b) as Hab by (intros ->; congruence).
  exists (mask_bit agent_states grid_size a (direction sa)
            <$> neighbour_coords (position sa)),
         (mask_bit agent_states grid_size b (direction sb)
            <$> neighbour_coords (position sb)).
  split; [apply opp_dir_mask_run; assumption|].
  split; [apply opp_dir_mask_run; assumption|].
  split.
  - rewrite list_lookup_fmap, neighbour_lookup, <- Hpos. cbn [fmap option_fmap option_map].
    f_equal. unfold mask_bit. apply andb_true_iff. split.
    + apply bool_decide_eq_true. exact Hinb.
    + apply opposite_at_true. exists b, sb. auto.
  - rewrite list_lookup_fmap, neighbour_lookup.
    assert ((fst (position sb) + fst (compass_offset (compass_opposite d)),
             snd (position sb) + snd (compass_offset (compass_opposite d)))
            = position sa) as ->.
    { rewrite Hpos. destruct (position sa) as [x y].
      destruct d; simpl; f_equal; lia. }
    cbn [fmap option_fmap option_map].
    f_equal. unfold mask_bit. apply andb_true_iff. split.
    + apply bool_decide_eq_true. exact Hina.
    + apply opposite_at_true. exists a, sa. auto.
Qed.

Lemma opp_dir_mask_mutual_witness :
  let table : gmap Z agent_state :=
    list_to_map [(0, mkAgentState (2, 2) 0); (1, mkAgentState (1, 1) 1)] in
  let o : gmap string attr :=
    list_to_map [("agent_states"%string, AStates table);
                 ("grid_size"%string, AInt 5)] in
  exists mask_a mask_b,
    opp_dir_mask 0 o = (Ok mask_a, o) /\
    opp_dir_mask 1 o = (Ok mask_b, o) /\
    mask_a !! 0%nat = Some true /\
    mask_b !! 7%nat = Some true.
Proof.
  intros table o.
  apply (opp_dir_mask_mutual o table 5 0 1
           (mkAgentState (2, 2) 0) (mkAgentState (1, 1) 1) NorthWest).
  - reflexivity.
  - reflexivity.
  - reflexivity.
  - reflexivity.
  - discriminate.
  - reflexivity.
  - simpl. lia.
  - simpl. lia.
Defined.

(** X18. The sensor is blind to agents on its own leg: when every other
    agent of the table has the direction flag of the querying agent, all
    eight bits are [False], wherever those agents stand. *)
Theorem opp_dir_mask_same_leg (o : gmap string attr) (agent_states : gmap Z agent_state)
    (grid_size agent_id : Z) (me : agent_state) :
  o !! "agent_states"%string = Some (AStates agent_states) ->
  o !! "grid_size"%string = Some (AInt grid_size) ->
  agent_states !! agent_id = Some me ->
  (forall other st, other <> agent_id -> agent_states !! other = Some st ->
                    direction st = direction me) ->
  opp_dir_mask agent_id o = (Ok (replicate 8 false), o).
Proof.
  intros Hstates Hgrid Hme Hsame.
  rewrite (opp_dir_mask_run o agent_states grid_size agent_id me Hstates Hgrid Hme).
  assert (forall cell, mask_bit agent_states grid_size agent_id (direction me) cell
                       = false) as Hfalse.
  { intros cell. unfold mask_bit. apply andb_false_iff. right.
    destruct (opposite_at agent_states agent_id (direction me) cell) eqn:Hopp;
      [|reflexivity].
    apply opposite_at_true in Hopp as (other & st & Hne & Hlook & _ & Hdiff).
    exfalso. apply Hdiff. apply (Hsame other st Hne Hlook). }
  destruct (position me) as [x y]. unfold neighbour_coords.
  cbn [fmap list_fmap]. rewrite !Hfalse. reflexivity.
Qed.

Lemma opp_dir_mask_same_leg_witness :
  let table : gmap Z agent_state :=
    list_to_map [(0, mkAgentState (2, 2) 1); (1, mkAgentState (1, 1) 1)] in
  let o : gmap string attr :=
    list_to_map [("agent_states"%string, AStates table);
                 ("grid_size"%string, AInt 5)] in
  opp_dir_mask 0 o = (Ok (replicate 8 false), o).
Proof.
  intros table o.
  apply (opp_dir_mask_same_leg o table 5 0 (mkAgentState (2, 2) 1)).
  - reflexivity.
  - reflexivity.
  - reflexivity.
  - intros other st Hne Hlook. unfold table in Hlook.
    destruct (decide (other = 1)) as [->|Hne1].
    + vm_compute in Hlook. injection Hlook as <-. reflexivity.
    + rewrite !list_to_map_cons, lookup_insert_ne in Hlook by congruence.
      rewrite lookup_insert_ne in Hlook by congruence.
      rewrite list_to_map_nil, lookup_empty in Hlook. discriminate Hlook.
Defined.
End SensorMore.

(** ** More on the environment: collisions and free movement *)

Section CollisionMore.
Import Grid.

(** X19. Nobody collides alone. An agent that a tick marks collided has a
    partner: another agent with the same candidate cell, on the other leg,
    that the same tick marks collided too. *)
Theorem collided_agents_have_a_partner (e : GridWorldEnv) (actions : list Z) (i : nat) :
  well_formed e ->
  i ∈ collided e actions ->
  exists j di dj,
    j <> i /\ j ∈ collided e actions /\
    candidates e actions !! j = candidates e actions !! i /\
    directions e !! i = Some di /\ directions e !! j = Some dj /\
    leg_of dj <> leg_of di.
Proof.
  intros Hwf Hin.
  destruct (detect_after_count e actions 0 Hwf) as [_ Hmark].
  pose proof (proj1 (Hmark i) Hin)
    as (p & Hi & HA & HB & (j & Hj & Hdj) & (k & dk & Hk & Hdk & Hne)).
  assert (forall m, candidates e actions !! m = Some p -> m ∈ collided e actions)
    as Hgroup.
  { intros m Hm. apply Hmark. exists p. split; [exact Hm|].
    split; [exact HA|]. split; [exact HB|]. split.
    - exists j. auto.
    - exists k, dk. auto. }
  destruct Hwf as (Hlp & _ & Hld).
  destruct (lookup_lt_is_Some_2 (directions e) i) as [di Hdi].
  { apply lookup_lt_Some in Hi. unfold candidates in Hi.
    rewrite length_zip_with in Hi. lia. }
  destruct (decide (di = 0)) as [->|Hdi0].
  - exists k, 0, dk. split; [intros ->; congruence|].
    split; [apply Hgroup, Hk|]. split; [congruence|].
    split; [exact Hdi|]. split; [exact Hdk|].
    unfold leg_of. rewrite decide_False by exact Hne.
    rewrite decide_True by reflexivity. discriminate.
  - exists j, di, 0. split; [intros ->; congruence|].
    split; [apply Hgroup, Hj|]. split; [congruence|].
    split; [exact Hdi|]. split; [exact Hdj|].
    unfold leg_of. rewrite decide_True by reflexivity.
    rewrite decide_False by exact Hdi0. discriminate.
Qed.

Lemma collided_agents_have_a_partner_witness :
  let e := mkEnv 5 2 COLLISION_PENALTY DELIVERY_REWARD (0, 0) (4, 4)
                 [(1, 1); (1, 3)] [1; 0] [0; 1] 0 0 0 0 in
  well_formed e /\ 0%nat ∈ collided e [EAST; WEST] /\
  exists j, j <> 0%nat /\ j ∈ collided e [EAST; WEST].
Proof.
  intros e.
  assert (well_formed e) as Hwf by (repeat split).
  assert (0%nat ∈ collided e [EAST; WEST]) as Hin.
  { apply (bool_decide_unpack _). vm_compute. exact I. }
  split; [exact Hwf|]. split; [exact Hin|].
  destruct (collided_agents_have_a_partner e [EAST; WEST] 0%nat Hwf Hin)
    as (j & di & dj & Hne & Hj & _).
  exists j. split; [exact Hne | exact Hj].
Defined.

(** X20. In an environment reachable from the constructor nothing ever
    blocks a move: a tick with one action per agent puts every agent on its
    candidate position, the clamped move of its action. *)
Theorem reachable_agents_move_freely (e : GridWorldEnv) (actions : list Z) :
  reachable e -> Z.of_nat (length actions) = num_agents e ->
  agent_positions (snd (step actions e)) = candidates e actions.
Proof.
  intros Hreach Hlen.
  pose proof (reachable_quiet e Hreach) as Hq.
  pose proof Hq as (Hwf & Hc & Hd & _).
  pose proof Hwf as (Hlp & Hlc & Hld).
  destruct (step_agentwise e actions Hwf Hlen)
    as (observations & rewards & inf & e' & Hrun & Hsize & _ & _ & _ & _ & Hrows).
  rewrite Hrun. cbn [snd].
  destruct Hsize as (Hz1 & _). cbn [fst snd] in Hz1.
  assert (length (candidates e actions) = length actions) as Hcands.
  { unfold candidates. rewrite length_zip_with. lia. }
  apply list_eq. intros i.
  destruct (decide (i < length actions)%nat) as [Hi|Hi].
  - destruct (lookup_lt_is_Some_2 (agent_positions e) i) as [p Hp]; [lia|].
    destruct (lookup_lt_is_Some_2 (candidates e actions) i) as [q Hcand]; [lia|].
    destruct (lookup_lt_is_Some_2 (carrying e) i) as [c Hci]; [lia|].
    destruct (lookup_lt_is_Some_2 (directions e) i) as [d Hdi]; [lia|].
    specialize (Hrows i p q c d Hp Hcand Hci Hdi).
    pose proof (quiet_events e actions i Hq) as Hev.
    unfold event_of in Hev. rewrite Hcand, Hci, Hdi in Hev.
    rewrite Hev in Hrows. simpl in Hrows. unfold row in Hrows.
    injection Hrows as Hp' _ _ _. cbn [snd] in Hp'. rewrite Hp', Hcand. reflexivity.
  - rewrite !lookup_ge_None_2 by lia. reflexivity.
Qed.

Lemma reachable_agents_move_freely_witness :
  let e := __init__ 5 4 COLLISION_PENALTY DELIVERY_REWARD (1, 1) (3, 3) in
  reachable e /\ Z.of_nat (length [NORTH; SOUTH; WEST; EAST]) = num_agents e /\
  agent_positions (snd (step [NORTH; SOUTH; WEST; EAST] e))
  = [(0, 1); (2, 1); (1, 0); (1, 2)].
Proof.
  intros e.
  assert (reachable e) as Hreach.
  { apply reachable_init.
    - unfold in_grid. simpl. lia.
    - unfold in_grid. simpl. lia.
    - discriminate. }
  assert (Z.of_nat (length [NORTH; SOUTH; WEST; EAST]) = num_agents e) as Hlen
    by reflexivity.
  split; [exact Hreach|]. split; [exact Hlen|].
  rewrite (reachable_agents_move_freely e [NORTH; SOUTH; WEST; EAST] Hreach Hlen).
  reflexivity.
Defined.
End CollisionMore.
